(** * scripts/occupy_gpu.py: GPU memory reservation, hold loop and release

    A shallow embedding of [occupy_gpu.py].  The script is glue around
    three external parties, which appear here as inputs of the model:

    - the Python runtime ([str.strip], [int], float arithmetic, signal
      delivery, process exit status);
    - the tensor library ([torch.cuda.device_count], [torch.zeros],
      in-place arithmetic on [float32] tensors);
    - the clock ([time.time], [time.sleep]).

    Floats are IEEE-754 values ([spec_float]): binary64 for Python's
    [float], binary32 for the contents of the tensors.  Clock readings
    are rationals and their difference is exact.

    [argparse] is a fourth party: what it makes of the command line is an
    input ([command_line]), and [occupy_gpu] is the script from its first
    statement; [main] is the script from the namespace on.

    Signals are delivered while the hold loop runs, one statement at a
    time.  A signal that arrives before the handlers are installed (the
    interpreter's default disposition applies then), one that arrives
    once the loop is left, during the last three statements, and one that
    arrives inside the handler itself are outside the runs described
    here; so is an element count that [torch.zeros] refuses as an
    argument. *)

From Stdlib Require Import ZArith QArith List String Ascii Bool Lia Lqa.
From Stdlib Require Import Floats.SpecFloat.
Import ListNotations.
Local Open Scope Z_scope.

(** ** Python values the script computes with *)

Module PyFloat.

(** Python [float]: IEEE-754 binary64. *)
Definition prec64 : Z := 53.
Definition emax64 : Z := 1024.
(** [torch.float32]: IEEE-754 binary32. *)
Definition prec32 : Z := 24.
Definition emax32 : Z := 128.

Definition f64_of_Z (z : Z) : spec_float := binary_normalize prec64 emax64 z 0 false.
Definition f32_of_Z (z : Z) : spec_float := binary_normalize prec32 emax32 z 0 false.

Definition f64_mul := SFmul prec64 emax64.
Definition f64_div := SFdiv prec64 emax64.
Definition f32_add := SFadd prec32 emax32.
Definition f32_sub := SFsub prec32 emax32.

(** Rounding of a binary64 scalar to the tensor's element type. *)
Definition f32_of_f64 (x : spec_float) : spec_float :=
  match x with
  | S754_finite s m e => binary_normalize prec32 emax32 (cond_Zopp s (Zpos m)) e s
  | _ => x
  end.

(** The literal [0.0001]: the binary64 value nearest to 1/10000. *)
Definition lit_0_0001 : spec_float := f64_div (f64_of_Z 1) (f64_of_Z 10000).

End PyFloat.
Import PyFloat.

Arguments f64_of_Z : simpl never.
Arguments f32_of_Z : simpl never.
Arguments f64_mul : simpl never.
Arguments f64_div : simpl never.
Arguments f32_add : simpl never.
Arguments f32_sub : simpl never.
Arguments f32_of_f64 : simpl never.
Arguments lit_0_0001 : simpl never.

(** Exceptions that reach [main]. *)
Inductive exn : Type :=
| ValueError
| OverflowError
| RuntimeError (oom_text : bool)   (* does the lower-cased message contain "out of memory" *)
| KeyboardInterrupt
| SystemExit (code : Z).

Inductive py_result (A : Type) : Type :=
| Return (a : A)
| Raise (e : exn).
Arguments Return {A} a.
Arguments Raise {A} e.

(** [int(x)] on a float: truncation toward zero; NaN and the infinities raise. *)
Definition int_of_float (x : spec_float) : py_result Z :=
  match x with
  | S754_nan => Raise ValueError
  | S754_infinity _ => Raise OverflowError
  | S754_zero _ => Return 0
  | S754_finite s m e => Return (cond_Zopp s (Z.shiftl (Zpos m) e))
  end.

(** The status with which the interpreter ends the process when an
    exception leaves [main]: [sys.exit(n)] gives [n], a traceback gives 1. *)
Definition exit_status_of_exn (e : exn) : Z :=
  match e with
  | SystemExit code => code
  | _ => 1
  end.

(** [s.split(',')]: never empty, the pieces keep their blanks. *)
Fixpoint split (sep : ascii) (s : string) : list string :=
  match s with
  | EmptyString => [EmptyString]
  | String c rest =>
      if Ascii.eqb c sep then EmptyString :: split sep rest
      else match split sep rest with
           | piece :: pieces => String c piece :: pieces
           | [] => [String c EmptyString]
           end
  end.

(** ** Data of the script *)

(** The namespace returned by [parse_args]. *)
Record Args : Type := {
  gpus : string;
  memory : spec_float;
  duration : Z
}.

(** A [float32] tensor living on one device. *)
Record tensor : Type := {
  device : Z;
  data : list spec_float
}.

Inductive signal : Type := SIGINT | SIGTERM.

(** Where the hold loop stands: the statement it is about to execute. *)
Inductive pc : Type :=
| AtSleep                 (* time.sleep(10) *)
| AtAdd (i : nat)         (* t += 0.0001, t the i-th element of tensors *)
| AtSub (i : nat)         (* t -= 0.0001 *)
| AtCheck.                (* if args.duration > 0 and ... *)

(** What the script prints, one constructor per [print]. *)
Inductive msg : Type :=
| MsgCudaUnavailable
| MsgTorchMissing
| MsgInvalidGpuIds
| MsgGpuNotFound (gpu_id num_gpus : Z)
| MsgAllocating (memory_gb : spec_float) (gpu_ids : list Z)
| MsgAllocatingOn (gpu_id : Z)
| MsgNotEnoughMemory (gpu_id : Z) (memory_gb : spec_float)
| MsgAllocError (gpu_id : Z)
| MsgOK
| MsgHolding (gpu_ids : list Z)
| MsgWillRelease (seconds : Z)
| MsgPressCtrlC
| MsgReleasing
| MsgDone
| MsgDurationReached (seconds : Z)
| MsgReleased.

(** Observable actions of a run, in program order. *)
Inductive event : Type :=
| Printed (m : msg)
| Acquired (t : tensor)             (* allocate_memory returned a tensor *)
| AcquireFailed (gpu_id : Z)        (* allocate_memory returned None or raised *)
| Cleared (dropped : list tensor)   (* tensors.clear() *)
| EmptyCache                        (* torch.cuda.empty_cache() *)
| HandlersInstalled                 (* signal.signal(SIGINT, ..), signal.signal(SIGTERM, ..) *)
| Slept (seconds : Z)               (* time.sleep returned *)
| Touched (i : nat)                 (* both halves of the keep-alive on tensor i were applied *)
| Checked (now : Q) (stop : bool)   (* the timeout test was evaluated *)
| Handler (s : signal) (at_pc : pc) (* signal_handler entered, the loop standing at at_pc *)
| Traceback (e : exn).              (* an exception left main *)

(** What [argparse] makes of the command line: it rejects it (an option
    missing or unknown, a [--memory] that is no float, a [--duration]
    that is no integer), it is asked for help, or it hands back the
    namespace. *)
Inductive command_line : Type :=
| Rejected
| HelpRequested
| Accepted (args : Args).

(** ** The outside world *)

Inductive dep_status : Type := TorchMissing | CudaUnavailable | TorchReady.

Record World : Type := {
  torch_status : dep_status;                  (* import torch; torch.cuda.is_available() *)
  device_count : Z;                           (* torch.cuda.device_count() *)
  backend : nat -> Z -> Z -> option bool;     (* k-th allocation on a device of so many
                                                 elements: None succeeds, Some oom raises
                                                 RuntimeError *)
  start_clock : Q                             (* the wall clock when the loop is entered *)
}.

(** What the world does while the loop executes one statement. *)
Record tick : Type := {
  sig : option signal;    (* a signal is delivered before the statement runs *)
  fault : bool;           (* an in-place tensor operation raises RuntimeError *)
  lag : Q                 (* seconds the statement takes beyond its nominal time:
                             10 for the sleep, 0 for the others *)
}.

(** ** The program state *)

(** The list [tensors] of [main] (shared with [signal_handler], which
    closes over it), the actions performed so far, and the wall clock
    that [time.time()] reads. *)
Record state : Type := {
  tensors : list tensor;
  trace : list event;
  clock : Q
}.

Definition initial : state := {| tensors := []; trace := []; clock := 0 |}.

Definition emit (e : event) (st : state) : state :=
  {| tensors := tensors st; trace := trace st ++ [e]; clock := clock st |}.

(** [tensors.append(tensor)] *)
Definition append (t : tensor) (st : state) : state :=
  {| tensors := tensors st ++ [t]; trace := trace st; clock := clock st |}.

(** [tensors.clear()] *)
Definition clear (st : state) : state :=
  {| tensors := []; trace := trace st ++ [Cleared (tensors st)]; clock := clock st |}.

(** Wall-clock time going by. *)
Definition elapse (seconds : Q) (st : state) : state :=
  {| tensors := tensors st; trace := trace st; clock := (clock st + seconds)%Q |}.

(** The loop is entered: [start_time = time.time()]. *)
Definition enter (start_time : Q) (st : state) : state :=
  {| tensors := tensors st; trace := trace st; clock := start_time |}.

(** In-place update of the tensor at position [i]; the list keeps the object. *)
Fixpoint update_nth {A : Type} (i : nat) (f : A -> A) (l : list A) : list A :=
  match l, i with
  | [], _ => []
  | x :: rest, O => f x :: rest
  | x :: rest, S j => x :: update_nth j f rest
  end.

(** [t += c] and [t -= c] for a Python scalar [c] on a [float32] tensor:
    the scalar is rounded to the element type, the operation is
    element-wise in binary32. *)
Definition iadd_scalar (c : spec_float) (t : tensor) : tensor :=
  {| device := device t; data := map (fun x => f32_add x (f32_of_f64 c)) (data t) |}.

Definition isub_scalar (c : spec_float) (t : tensor) : tensor :=
  {| device := device t; data := map (fun x => f32_sub x (f32_of_f64 c)) (data t) |}.

(** [torch.zeros(num_elements, dtype=torch.float32, device=device)] *)
Definition zeros (gpu_id : Z) (num_elements : Z) : tensor :=
  {| device := gpu_id; data := repeat (S754_zero false) (Z.to_nat num_elements) |}.

(** How a run stands when the observed part of the world is used up. *)
Inductive status : Type :=
| Exited (code : Z)
| Holding (at_pc : pc).

Record run : Type := {
  final : state;
  outcome : status
}.

(** Control leaving one statement of the hold loop. *)
Inductive flow : Type :=
| Next (p : pc)
| Break
| Throw (e : exn).

(** Control leaving the hold loop. *)
Inductive loop_end : Type :=
| LoopBreak
| LoopRaise (e : exn)
| LoopPending (p : pc).

(** [parse_args]: [parser.parse_args()] prints the usage and leaves with
    [SystemExit(2)] on a command line it rejects, prints the help and
    leaves with [SystemExit(0)] on [-h], and otherwise returns the
    namespace. *)
Definition parse_args (argv : command_line) : py_result Args :=
  match argv with
  | Rejected => Raise (SystemExit 2)
  | HelpRequested => Raise (SystemExit 0)
  | Accepted args => Return args
  end.

Section Script.

(** Builtins of the Python runtime: [str.strip] and [int] on a string
    ([None] stands for [ValueError]). *)
Variable str_strip : string -> string.
Variable str_to_int : string -> option Z.

(** [check_dependencies]: the message printed before [sys.exit(1)], if any. *)
Definition check_dependencies (w : World) : option msg :=
  match torch_status w with
  | TorchMissing => Some MsgTorchMissing
  | CudaUnavailable => Some MsgCudaUnavailable
  | TorchReady => None
  end.

(** [[int(x.strip()) for x in pieces]] *)
Fixpoint ints_of (pieces : list string) : option (list Z) :=
  match pieces with
  | [] => Some []
  | x :: rest =>
      match str_to_int (str_strip x) with
      | None => None
      | Some z =>
          match ints_of rest with
          | None => None
          | Some zs => Some (z :: zs)
          end
      end
  end.

Definition parse_gpu_ids (s : string) : option (list Z) :=
  ints_of (split ","%char s).

(** The test of the validation loop. *)
Definition out_of_range (num_gpus gpu_id : Z) : bool :=
  (gpu_id <? 0) || (gpu_id >=? num_gpus).

(** The validation loop: the first identifier it rejects. *)
Definition first_invalid (num_gpus : Z) (gpu_ids : list Z) : option Z :=
  find (out_of_range num_gpus) gpu_ids.

(** [int((memory_gb * 1024 * 1024 * 1024) / 4)] *)
Definition num_elements (memory_gb : spec_float) : py_result Z :=
  int_of_float
    (f64_div
       (f64_mul (f64_mul (f64_mul memory_gb (f64_of_Z 1024)) (f64_of_Z 1024)) (f64_of_Z 1024))
       (f64_of_Z 4)).

(** [allocate_memory], called for the [k]-th requested device.  Only
    [RuntimeError] is caught; a negative size makes [torch.zeros] raise
    it, and what happens at any other size is the [backend]'s answer. *)
Definition allocate_memory (w : World) (k : nat) (gpu_id : Z) (memory_gb : spec_float)
    (st : state) : state * py_result (option tensor) :=
  match num_elements memory_gb with
  | Raise e => (emit (AcquireFailed gpu_id) st, Raise e)
  | Return n =>
      match (if n <? 0 then Some false else backend w k gpu_id n) with
      | None =>
          let t := iadd_scalar (f64_of_Z 1) (zeros gpu_id n) in
          (emit (Acquired t) st, Return (Some t))
      | Some oom =>
          let st := emit (AcquireFailed gpu_id) st in
          (emit (Printed (if oom then MsgNotEnoughMemory gpu_id memory_gb
                          else MsgAllocError gpu_id)) st,
           Return None)
      end
  end.

(** The allocation loop of [main], at its [k]-th iteration. *)
Fixpoint allocate_all (w : World) (memory_gb : spec_float) (k : nat) (gpu_ids : list Z)
    (st : state) : state * py_result unit :=
  match gpu_ids with
  | [] => (st, Return tt)
  | gpu_id :: rest =>
      let st := emit (Printed (MsgAllocatingOn gpu_id)) st in
      match allocate_memory w k gpu_id memory_gb st with
      | (st, Raise e) => (st, Raise e)
      | (st, Return None) => (clear st, Raise (SystemExit 1))
      | (st, Return (Some t)) =>
          allocate_all w memory_gb (S k) rest (emit (Printed MsgOK) (append t st))
      end
  end.

(** [signal_handler], entered while the loop stands at [p]. *)
Definition signal_handler (s : signal) (p : pc) (st : state) : state * exn :=
  let st := emit (Handler s p) st in
  let st := emit (Printed MsgReleasing) st in
  let st := clear st in
  let st := emit EmptyCache st in
  let st := emit (Printed MsgDone) st in
  (st, SystemExit 0).

(** [args.duration > 0 and (time.time() - start_time) >= args.duration] *)
Definition timeout_reached (seconds : Z) (start_time now : Q) : bool :=
  (0 <? seconds) && Qle_bool (inject_Z seconds) (now - start_time).

(** The head of [for t in tensors], about to fetch element [i]. *)
Definition for_head (i : nat) (st : state) : pc :=
  if (i <? List.length (tensors st))%nat then AtAdd i else AtCheck.

Definition touch_add (i : nat) (st : state) : state :=
  {| tensors := update_nth i (iadd_scalar lit_0_0001) (tensors st);
     trace := trace st; clock := clock st |}.

Definition touch_sub (i : nat) (st : state) : state :=
  {| tensors := update_nth i (isub_scalar lit_0_0001) (tensors st);
     trace := trace st; clock := clock st |}.

(** One statement of the loop body. *)
Definition exec (args : Args) (w : World) (p : pc) (t : tick) (st : state) : state * flow :=
  match p with
  | AtSleep => (elapse (10 + lag t) (emit (Slept 10) st), Next (for_head 0 st))
  | AtAdd i =>
      if fault t then (st, Throw (RuntimeError false))
      else (elapse (lag t) (touch_add i st), Next (AtSub i))
  | AtSub i =>
      if fault t then (st, Throw (RuntimeError false))
      else (elapse (lag t) (emit (Touched i) (touch_sub i st)), Next (for_head (S i) st))
  | AtCheck =>
      if timeout_reached (duration args) (start_clock w) (clock st)
      then (emit (Printed (MsgDurationReached (duration args)))
              (emit (Checked (clock st) true) st),
            Break)
      else (elapse (lag t) (emit (Checked (clock st) false) st), Next AtSleep)
  end.

(** A pending signal runs the handler before the statement; the
    [SystemExit] it raises unwinds the loop. *)
Definition step (args : Args) (w : World) (p : pc) (t : tick) (st : state) : state * flow :=
  match sig t with
  | Some s => let (st', e) := signal_handler s p st in (st', Throw e)
  | None => exec args w p t st
  end.

(** [while True: ...] against the observed ticks. *)
Fixpoint hold_loop (args : Args) (w : World) (p : pc) (ticks : list tick) (st : state)
    : state * loop_end :=
  match ticks with
  | [] => (st, LoopPending p)
  | t :: rest =>
      match step args w p t st with
      | (st', Next p') => hold_loop args w p' rest st'
      | (st', Break) => (st', LoopBreak)
      | (st', Throw e) => (st', LoopRaise e)
      end
  end.

(** The code after the loop: [tensors.clear()], [empty_cache()], last message. *)
Definition cleanup (st : state) : state :=
  emit (Printed MsgReleased) (emit EmptyCache (clear st)).

(** [try: <loop> except KeyboardInterrupt: pass], then the cleanup.  The
    ticks are those of the loop; the three statements of the cleanup
    consume none. *)
Definition hold_and_release (args : Args) (w : World) (ticks : list tick) (st : state)
    : state * loop_end :=
  match hold_loop args w AtSleep ticks st with
  | (st', LoopBreak) => (cleanup st', LoopBreak)
  | (st', LoopRaise KeyboardInterrupt) => (cleanup st', LoopBreak)
  | other => other
  end.

(** The body of [main] up to the hold loop; no signal is delivered
    during it. *)
Definition acquire (args : Args) (w : World) : state * py_result (list Z) :=
  match check_dependencies w with
  | Some m => (emit (Printed m) initial, Raise (SystemExit 1))
  | None =>
      match parse_gpu_ids (gpus args) with
      | None => (emit (Printed MsgInvalidGpuIds) initial, Raise (SystemExit 1))
      | Some gpu_ids =>
          match first_invalid (device_count w) gpu_ids with
          | Some gpu_id =>
              (emit (Printed (MsgGpuNotFound gpu_id (device_count w))) initial,
               Raise (SystemExit 1))
          | None =>
              let st := emit (Printed (MsgAllocating (memory args) gpu_ids)) initial in
              match allocate_all w (memory args) 0 gpu_ids st with
              | (st, Raise e) => (st, Raise e)
              | (st, Return tt) => (st, Return gpu_ids)
              end
          end
      end
  end.

(** The interpreter ending the process on an exception out of [main]. *)
Definition die (e : exn) (st : state) : run :=
  {| final := match e with
              | SystemExit _ => st
              | _ => emit (Traceback e) st
              end;
     outcome := Exited (exit_status_of_exn e) |}.

(** Between acquisition and the loop: the two messages, the handlers,
    [start_time = time.time()]. *)
Definition announce (args : Args) (w : World) (gpu_ids : list Z) (st : state) : state :=
  let st := emit (Printed (MsgHolding gpu_ids)) st in
  let st := emit (Printed (if 0 <? duration args then MsgWillRelease (duration args)
                           else MsgPressCtrlC)) st in
  enter (start_clock w) (emit HandlersInstalled st).

(** [main] once [parse_args] has returned [args], run against a world
    and the ticks observed during the hold. *)
Definition main (args : Args) (w : World) (ticks : list tick) : run :=
  match acquire args w with
  | (st, Raise e) => die e st
  | (st, Return gpu_ids) =>
      match hold_and_release args w ticks (announce args w gpu_ids st) with
      | (st, LoopBreak) => {| final := st; outcome := Exited 0 |}
      | (st, LoopRaise e) => die e st
      | (st, LoopPending p) => {| final := st; outcome := Holding p |}
      end
  end.

(** The script from its first statement: [args = parse_args()], and then
    the rest of [main]. *)
Definition occupy_gpu (argv : command_line) (w : World) (ticks : list tick) : run :=
  match parse_args argv with
  | Raise e => die e initial
  | Return args => main args w ticks
  end.

End Script.

(** ** Reading a trace *)

(** The reservations obtained, in order of acquisition. *)
Definition acquired (tr : list event) : list tensor :=
  flat_map (fun e => match e with Acquired t => [t] | _ => [] end) tr.

(** The reservations dropped by the calls of [tensors.clear()]. *)
Definition released (tr : list event) : list tensor :=
  flat_map (fun e => match e with Cleared ts => ts | _ => [] end) tr.

Definition is_attempt (e : event) : bool :=
  match e with Acquired _ | AcquireFailed _ => true | _ => false end.

Definition is_clear (e : event) : bool :=
  match e with Cleared _ => true | _ => false end.

Definition is_hold_event (e : event) : bool :=
  match e with
  | HandlersInstalled | Slept _ | Touched _ | Checked _ _ | Handler _ _ => true
  | _ => false
  end.

(** What a loop that keeps running leaves in the trace. *)
Definition is_idle_event (e : event) : bool :=
  match e with
  | Slept _ | Touched _ | Checked _ false => true
  | _ => false
  end.

(** Calls of [allocate_memory] and of [tensors.clear()]. *)
Definition acquire_calls (tr : list event) : nat := List.length (filter is_attempt tr).
Definition clear_calls (tr : list event) : nat := List.length (filter is_clear tr).

(** Did the run get as far as the hold loop. *)
Definition hold_started (tr : list event) : bool := existsb is_hold_event tr.

(** The events by which the loop is left. *)
Definition is_stop_event (e : event) : bool :=
  match e with
  | Checked _ true | Handler _ _ => true
  | _ => false
  end.

(** The loop left through its [break]. *)
Definition timed_out (tr : list event) : Prop := exists now, In (Checked now true) tr.

(** The loop left through [signal_handler]. *)
Definition signalled (tr : list event) : Prop := exists s p, In (Handler s p) tr.

(** The keep-alive of one tensor: [t += 0.0001] then [t -= 0.0001]. *)
Definition keep_alive (t : tensor) : tensor :=
  isub_scalar lit_0_0001 (iadd_scalar lit_0_0001 t).

(** The contents [allocate_memory] leaves in a tensor: every element 1.0. *)
Definition all_ones (t : tensor) : Prop :=
  Forall (fun x => x = f32_of_Z 1) (data t).


(** "Signals are only honoured at the top of an iteration": every entry
    of the handler finds the loop at its first statement. *)
Definition handled_at_loop_top (r : run) : Prop :=
  forall s p, In (Handler s p) (trace (final r)) -> p = AtSleep.

(** The contents of the list while the loop stands at [p], given the
    contents [ts] at acquisition: between the two halves of the keep-alive
    of tensor [i], that tensor has the constant added. *)
Definition contents_at (p : pc) (ts : list tensor) : list tensor :=
  match p with
  | AtSub i => update_nth i (iadd_scalar lit_0_0001) ts
  | _ => ts
  end.

(** A moment without signal or failure in which the statement takes
    exactly its nominal time. *)
Definition punctual : tick := {| sig := None; fault := false; lag := 0 |}.

(** The ticks of [k] whole iterations over [n] tensors: the sleep, two
    operations per tensor, the timeout test. *)
Definition punctual_run (n k : nat) : list tick := repeat punctual ((2 * n + 2) * k).

(** The number of 10-second sleeps it takes to cover so many seconds. *)
Definition iterations_until (seconds : Z) : nat := Z.to_nat ((seconds + 9) / 10).

(** Seconds certainly spent asleep since the loop was entered, when it
    stands at [p]. *)
Definition slept (p : pc) : Q :=
  match p with
  | AtSleep => 0
  | _ => 10
  end.

(** "The set stops within [lo, hi) seconds of entering the loop." *)
Definition stops_within (lo hi : Q) (w : World) (r : run) : Prop :=
  exists now, In (Checked now true) (trace (final r)) /\
              (lo <= now - start_clock w)%Q /\ (now - start_clock w < hi)%Q.

(** The same request with another [--duration]. *)
Definition with_duration (seconds : Z) (args : Args) : Args :=
  {| gpus := gpus args; memory := memory args; duration := seconds |}.

(** The same moment without signal and without backend failure. *)
Definition calm (t : tick) : tick := {| sig := None; fault := false; lag := lag t |}.

(** Does the [k]-th call of [allocate_memory] hand back a tensor. *)
Definition acquires (w : World) (memory_gb : spec_float) (k : nat) (gpu_id : Z) : bool :=
  match snd (allocate_memory w k gpu_id memory_gb initial) with
  | Return (Some _) => true
  | _ => false
  end.

(** "The loop goes to its timeout stop exactly when a positive duration
    has elapsed": a run that still stands in the loop has not been held
    for the duration yet. *)
Definition stops_when_due (args : Args) (w : World) (r : run) : Prop :=
  forall p, outcome r = Holding p ->
            ~ (0 < duration args /\
               (inject_Z (duration args) <= clock (final r) - start_clock w)%Q).

(** "The hold loop stops only on a termination signal." *)
Definition stops_only_on_signal (r : run) : Prop :=
  hold_started (trace (final r)) = true ->
  forall code, outcome r = Exited code -> signalled (trace (final r)).

(** "The exit code is 0 only when the reservations were acquired and
    later released by timeout or signal." *)
Definition zero_means_released (r : run) : Prop :=
  outcome r = Exited 0 ->
  acquired (trace (final r)) <> [] /\
  (timed_out (trace (final r)) \/ signalled (trace (final r))).

(** "The exit code is 1 whenever the request does not parse." *)
Definition one_on_rejection (argv : command_line) (r : run) : Prop :=
  argv = Rejected -> outcome r = Exited 1.

(** ** Further readings of a trace *)

(** The devices [allocate_memory] was called for, in order. *)
Definition attempted (tr : list event) : list Z :=
  flat_map (fun e => match e with
                     | Acquired t => [device t]
                     | AcquireFailed gpu_id => [gpu_id]
                     | _ => []
                     end) tr.

Definition is_empty_cache (e : event) : bool :=
  match e with EmptyCache => true | _ => false end.

(** Calls of [torch.cuda.empty_cache()]. *)
Definition empty_cache_calls (tr : list event) : nat :=
  List.length (filter is_empty_cache tr).

(** The ways the script reports a failure: its own "Error" messages on
    stderr, and the interpreter's traceback. *)
Definition is_error_report (e : event) : bool :=
  match e with
  | Printed MsgCudaUnavailable | Printed MsgTorchMissing | Printed MsgInvalidGpuIds
  | Printed (MsgGpuNotFound _ _) | Printed (MsgNotEnoughMemory _ _)
  | Printed (MsgAllocError _) | Traceback _ => true
  | _ => false
  end.

Definition error_reports (tr : list event) : nat :=
  List.length (filter is_error_report tr).

Definition is_sleep (e : event) : bool :=
  match e with Slept _ => true | _ => false end.

(** Calls of [time.sleep(10)] that returned. *)
Definition sleeps (tr : list event) : nat := List.length (filter is_sleep tr).

(** How often a character occurs in a string. *)
Fixpoint occurrences (c : ascii) (s : string) : nat :=
  match s with
  | EmptyString => 0
  | String a rest => ((if Ascii.eqb a c then 1 else 0) + occurrences c rest)%nat
  end.

(** What [allocate_memory] returns for a device when [num_elements] is
    [n]: [torch.zeros] and then [+= 1]. *)
Definition fresh_tensor (n : Z) (gpu_id : Z) : tensor :=
  iadd_scalar (f64_of_Z 1) (zeros gpu_id n).

(** The same moment with SIGTERM in place of whichever signal is delivered. *)
Definition as_sigterm (t : tick) : tick :=
  {| sig := option_map (fun _ => SIGTERM) (sig t); fault := fault t; lag := lag t |}.

(** The same action with the signal's name forgotten. *)
Definition unlabel (e : event) : event :=
  match e with
  | Handler _ p => Handler SIGTERM p
  | _ => e
  end.

Definition unlabel_state (st : state) : state :=
  {| tensors := tensors st; trace := map unlabel (trace st); clock := clock st |}.

Definition unlabel_run (r : run) : run :=
  {| final := unlabel_state (final r); outcome := outcome r |}.

(** A moment without signal and without backend failure. *)
Definition undisturbed (t : tick) : Prop := sig t = None /\ fault t = false.

(** ** A concrete runtime and world, for running the model *)

Module Sample.

(** The ASCII characters [str.isspace] accepts. *)
Definition is_blank (c : ascii) : bool :=
  let n := Z.of_nat (nat_of_ascii c) in
  ((9 <=? n) && (n <=? 13)) || ((28 <=? n) && (n <=? 32)).

Fixpoint lstrip (s : string) : string :=
  match s with
  | String c rest => if is_blank c then lstrip rest else s
  | EmptyString => EmptyString
  end.

Fixpoint rev_string (s acc : string) : string :=
  match s with
  | EmptyString => acc
  | String c rest => rev_string rest (String c acc)
  end.

(** [str.strip] on ASCII strings. *)
Definition strip (s : string) : string :=
  rev_string (lstrip (rev_string (lstrip s) EmptyString)) EmptyString.

Definition digit (c : ascii) : option Z :=
  let n := Z.of_nat (nat_of_ascii c) in
  if (48 <=? n) && (n <=? 57) then Some (n - 48) else None.

(** Digits, a single underscore allowed between two of them. *)
Fixpoint digits (s : string) (acc : Z) : option Z :=
  match s with
  | EmptyString => Some acc
  | String c rest =>
      if Ascii.eqb c "_"%char
      then match rest with
           | String d _ => match digit d with
                           | Some _ => digits rest acc
                           | None => None
                           end
           | EmptyString => None
           end
      else match digit c with
           | Some d => digits rest (10 * acc + d)
           | None => None
           end
  end.

Definition unsigned (s : string) : option Z :=
  match s with
  | String c _ => match digit c with
                  | Some _ => digits s 0
                  | None => None
                  end
  | EmptyString => None
  end.

(** [int] on a stripped ASCII string: an optional sign, then decimal
    digits with single underscores between them. *)
Definition to_int (s : string) : option Z :=
  match s with
  | String c rest =>
      if Ascii.eqb c "-"%char then option_map Z.opp (unsigned rest)
      else if Ascii.eqb c "+"%char then unsigned rest
      else unsigned s
  | EmptyString => None
  end.

(** 2^-28 GB: one [float32] element per tensor. *)
Definition four_bytes : spec_float := binary_normalize prec64 emax64 1 (-28) false.

(** Two devices, every allocation succeeds, the clock starts at 0. *)
Definition two_gpus : World :=
  {| torch_status := TorchReady; device_count := 2;
     backend := fun _ _ _ => None; start_clock := 0%Q |}.

(** The second allocation runs out of memory. *)
Definition second_fails : World :=
  {| torch_status := TorchReady; device_count := 2;
     backend := fun k _ _ => match k with 1%nat => Some true | _ => None end;
     start_clock := 0%Q |}.

Definition interrupt : tick := {| sig := Some SIGINT; fault := false; lag := 0 |}.
Definition broken : tick := {| sig := None; fault := true; lag := 0 |}.

(** A statement that takes 1000 seconds longer than it should. *)
Definition late : tick := {| sig := None; fault := false; lag := 1000 |}.

Definition request (ids : string) (seconds : Z) : Args :=
  {| gpus := ids; memory := four_bytes; duration := seconds |}.

Definition run_main := main strip to_int.
Definition run_script := occupy_gpu strip to_int.

End Sample.

(** * Properties *)

(** Splits a goal into its conjuncts and closes the immediate ones. *)
Ltac conj :=
  repeat match goal with |- _ /\ _ => split end;
  try reflexivity; try assumption.

(** ** Traces *)

Lemma acquired_app (a b : list event) : acquired (a ++ b) = acquired a ++ acquired b.
Proof. apply flat_map_app. Qed.

Lemma released_app (a b : list event) : released (a ++ b) = released a ++ released b.
Proof. apply flat_map_app. Qed.

Lemma acquire_calls_app (a b : list event) :
  acquire_calls (a ++ b) = (acquire_calls a + acquire_calls b)%nat.
Proof. unfold acquire_calls. now rewrite filter_app, length_app. Qed.

Lemma clear_calls_app (a b : list event) :
  clear_calls (a ++ b) = (clear_calls a + clear_calls b)%nat.
Proof. unfold clear_calls. now rewrite filter_app, length_app. Qed.

Lemma hold_started_app (a b : list event) :
  hold_started (a ++ b) = hold_started a || hold_started b.
Proof. apply existsb_app. Qed.

(** ** Contents of the tensors *)

Lemma touch_of_one :
  f32_sub (f32_add (f32_of_Z 1) (f32_of_f64 lit_0_0001)) (f32_of_f64 lit_0_0001) = f32_of_Z 1.
Proof. vm_compute. reflexivity. Qed.

Lemma keep_alive_ones (t : tensor) : all_ones t -> keep_alive t = t.
Proof.
  destruct t as [dev xs]. unfold all_ones, keep_alive, isub_scalar, iadd_scalar.
  cbn [data device]. intros H. f_equal. rewrite map_map.
  induction H as [|x rest Hx _ IH]; [reflexivity|].
  rewrite map_cons, IH, Hx, touch_of_one. reflexivity.
Qed.

Lemma fresh_tensor_ones (gpu_id n : Z) : all_ones (iadd_scalar (f64_of_Z 1) (zeros gpu_id n)).
Proof.
  unfold all_ones, iadd_scalar, zeros. cbn [data device].
  induction (Z.to_nat n) as [|k IH]; cbn [repeat map]; constructor; [|exact IH].
  vm_compute. reflexivity.
Qed.

Lemma update_nth_length {A : Type} (f : A -> A) (l : list A) (i : nat) :
  List.length (update_nth i f l) = List.length l.
Proof.
  revert i. induction l as [|x rest IH]; intros [|j]; simpl; auto.
Qed.

Lemma update_nth_twice {A : Type} (f g : A -> A) (l : list A) (i : nat) :
  update_nth i g (update_nth i f l) = update_nth i (fun x => g (f x)) l.
Proof.
  revert i. induction l as [|x rest IH]; intros [|j]; simpl; auto.
  now rewrite IH.
Qed.

Lemma update_nth_id {A : Type} (P : A -> Prop) (f : A -> A) (l : list A) (i : nat) :
  (forall x, P x -> f x = x) -> Forall P l -> update_nth i f l = l.
Proof.
  intros Hf. revert i. induction l as [|x rest IH]; intros [|j] H; simpl; auto;
    inversion H; subst.
  - now rewrite Hf.
  - now rewrite IH.
Qed.

(** ** Acquisition *)

Lemma num_elements_raises (m : spec_float) (e : exn) :
  num_elements m = Raise e -> e = ValueError \/ e = OverflowError.
Proof.
  unfold num_elements, int_of_float.
  destruct (f64_div _ _); intros H; inversion H; auto.
Qed.

Lemma acquires_needs_size (w : World) (m : spec_float) (k : nat) (g : Z) (e : exn) :
  num_elements m = Raise e -> acquires w m k g = false.
Proof.
  intros H. unfold acquires, allocate_memory. now rewrite H.
Qed.

(** The three ways [allocate_memory] ends. *)
Lemma allocate_memory_cases (w : World) (k : nat) (g : Z) (m : spec_float) (st : state) :
  (exists t, allocate_memory w k g m st = (emit (Acquired t) st, Return (Some t))
             /\ all_ones t /\ device t = g /\ acquires w m k g = true)
  \/ (exists says, allocate_memory w k g m st
                   = (emit (Printed says) (emit (AcquireFailed g) st), Return None)
                   /\ acquires w m k g = false)
  \/ (exists e, allocate_memory w k g m st = (emit (AcquireFailed g) st, Raise e)
                /\ num_elements m = Raise e).
Proof.
  unfold acquires, allocate_memory.
  destruct (num_elements m) as [n|e].
  - destruct (if n <? 0 then Some false else backend w k g n) as [oom|].
    + right; left. eexists. split; reflexivity.
    + left. eexists. repeat split. apply fresh_tensor_ones.
  - right; right. exists e. split; reflexivity.
Qed.

(** What the allocation loop has done when it ends, from its [k]-th iteration on. *)
Lemma allocate_all_spec (w : World) (m : spec_float) (ids : list Z) :
  forall (k : nat) (st st' : state) (res : py_result unit),
    allocate_all w m k ids st = (st', res) ->
    exists evs,
      trace st' = trace st ++ evs /\ clock st' = clock st /\ hold_started evs = false /\
      clear_calls evs = (match res with Raise (SystemExit _) => 1 | _ => 0 end)%nat /\
      match res with
      | Return _ =>
          tensors st' = tensors st ++ acquired evs /\ released evs = [] /\
          map device (acquired evs) = ids /\ Forall all_ones (acquired evs) /\
          forall j, (j < List.length ids)%nat -> acquires w m (k + j) (nth j ids 0) = true
      | Raise e =>
          exists j, (j < List.length ids)%nat /\
            (forall i, (i < j)%nat -> acquires w m (k + i) (nth i ids 0) = true) /\
            acquires w m (k + j) (nth j ids 0) = false /\
            List.length (acquired evs) = j /\
            ((e = SystemExit 1 /\ tensors st' = [] /\ released evs = tensors st ++ acquired evs)
             \/ (num_elements m = Raise e /\ tensors st' = tensors st ++ acquired evs
                 /\ released evs = []))
      end.
Proof.
  induction ids as [|g rest IH]; intros k st st' res H; simpl in H.
  - inversion H; subst. exists []. rewrite !app_nil_r. conj.
    + constructor.
    + intros j Hj. simpl in Hj. lia.
  - destruct (allocate_memory_cases w k g m (emit (Printed (MsgAllocatingOn g)) st))
      as [[t (E & Hones & Hdev & Hok)] | [[says (E & Hko)] | [e (E & Hnum)]]];
      rewrite E in H.
    + apply IH in H. destruct H as (evs & Htr & Hclk & Hhold & Hclr & Hres).
      exists ([Printed (MsgAllocatingOn g); Acquired t; Printed MsgOK] ++ evs).
      simpl in Htr, Hclk. rewrite Htr, <- !app_assoc.
      rewrite acquired_app, released_app, clear_calls_app, hold_started_app, Hhold, Hclr.
      change (acquired [Printed (MsgAllocatingOn g); Acquired t; Printed MsgOK]) with [t].
      split; [reflexivity|]. split; [exact Hclk|]. split; [reflexivity|].
      split; [reflexivity|].
      destruct res as [u|e].
      * destruct Hres as (Hts & Hrel & Hdevs & Hall & Hacq).
        simpl in Hts. rewrite Hts, <- app_assoc, Hrel. conj.
        -- simpl. now rewrite Hdev, Hdevs.
        -- constructor; assumption.
        -- intros [|j] Hj; simpl.
           ++ now rewrite Nat.add_0_r.
           ++ replace (k + S j)%nat with (S k + j)%nat by lia. apply Hacq. simpl in Hj. lia.
      * destruct Hres as (j & Hj & Hbefore & Hat & Hlen & Hend).
        exists (S j). conj.
        -- simpl. lia.
        -- intros [|i] Hi; simpl.
           ++ now rewrite Nat.add_0_r.
           ++ replace (k + S i)%nat with (S k + i)%nat by lia. apply Hbefore. lia.
        -- replace (k + S j)%nat with (S k + j)%nat by lia. exact Hat.
        -- simpl. now rewrite Hlen.
        -- destruct Hend as [(He & Hts & Hrel) | (Hnum & Hts & Hrel)]; [left | right];
             simpl in Hts, Hrel; rewrite Hts, Hrel, <- ?app_assoc; conj; assumption.
    + inversion H; subst. clear H.
      exists [Printed (MsgAllocatingOn g); AcquireFailed g; Printed says;
              Cleared (tensors st)].
      simpl. rewrite <- !app_assoc. conj.
      exists 0%nat. simpl. rewrite Nat.add_0_r, app_nil_r. conj; try lia. left. conj.
    + inversion H; subst. clear H.
      exists [Printed (MsgAllocatingOn g); AcquireFailed g].
      simpl. rewrite <- !app_assoc.
      assert (Hclr : clear_calls [Printed (MsgAllocatingOn g); AcquireFailed g]
                     = match e with SystemExit _ => 1 | _ => 0 end%nat)
        by (destruct (num_elements_raises _ _ Hnum) as [-> | ->]; reflexivity).
      conj. exists 0%nat. simpl. rewrite Nat.add_0_r, app_nil_r. conj; try lia.
      * eapply acquires_needs_size; eassumption.
      * right. conj.
Qed.

Lemma out_of_range_iff (n g : Z) : out_of_range n g = true <-> ~ (0 <= g < n).
Proof. unfold out_of_range. rewrite orb_true_iff, Z.ltb_lt, Z.geb_le. lia. Qed.

(** [find] stops at the first element that passes the test. *)
Lemma find_first {A : Type} (f : A -> bool) (l : list A) :
  Exists (fun x => f x = true) l ->
  exists pre x post,
    l = pre ++ x :: post /\ Forall (fun y => f y = false) pre /\ f x = true
    /\ find f l = Some x.
Proof.
  induction l as [|a rest IH]; intros H; [inversion H|].
  destruct (f a) eqn:Fa.
  - exists [], a, rest. simpl. rewrite Fa. conj. constructor.
  - inversion H as [? ? Ha | ? ? Hrest]; subst; [congruence|].
    destruct (IH Hrest) as (pre & x & post & -> & Hpre & Hx & Hfind).
    exists (a :: pre), x, post. simpl. rewrite Fa. conj. constructor; assumption.
Qed.

Section Acquisition.

Variable str_strip : string -> string.
Variable str_to_int : string -> option Z.

Local Abbreviation parse := (parse_gpu_ids str_strip str_to_int).
Local Abbreviation run_acquire := (acquire str_strip str_to_int).
Local Abbreviation run_main := (main str_strip str_to_int).

(** [C2] Validation is complete before any allocation: when some
    requested identifier lies outside [0, N), the run stops at the first
    such identifier with the "GPU not found" error, with exit status 1,
    having called neither [allocate_memory] nor [tensors.clear()]. *)
Theorem validation_is_upfront (args : Args) (w : World) (ticks : list tick)
    (gpu_ids : list Z) :
  check_dependencies w = None ->
  parse (gpus args) = Some gpu_ids ->
  Exists (fun g => ~ (0 <= g < device_count w)) gpu_ids ->
  exists pre g post,
    gpu_ids = pre ++ g :: post /\
    Forall (fun x => 0 <= x < device_count w) pre /\
    ~ (0 <= g < device_count w) /\
    run_main args w ticks
      = {| final := emit (Printed (MsgGpuNotFound g (device_count w))) initial;
           outcome := Exited 1 |} /\
    acquire_calls (trace (final (run_main args w ticks))) = 0%nat /\
    clear_calls (trace (final (run_main args w ticks))) = 0%nat /\
    tensors (final (run_main args w ticks)) = [].
Proof.
  intros Hdeps Hparse Hbad.
  destruct (find_first (out_of_range (device_count w)) gpu_ids)
    as (pre & g & post & Hsplit & Hpre & Hg & Hfind).
  { eapply Exists_impl; [|exact Hbad]. intros a Ha. now apply out_of_range_iff. }
  exists pre, g, post.
  assert (Hrun : run_main args w ticks
                 = {| final := emit (Printed (MsgGpuNotFound g (device_count w))) initial;
                      outcome := Exited 1 |}).
  { unfold main, acquire.
    rewrite Hdeps, Hparse. unfold first_invalid. rewrite Hfind. reflexivity. }
  rewrite Hrun. conj.
  - eapply Forall_impl; [|exact Hpre]. intros a Ha.
    destruct (Z_lt_dec a 0); [|destruct (Z_lt_dec a (device_count w))]; try lia;
      exfalso; assert (out_of_range (device_count w) a = true)
        by (apply out_of_range_iff; lia); congruence.
  - now apply out_of_range_iff.
Qed.

(** The run up to the hold loop, when the request is well formed. *)
Lemma acquire_valid (args : Args) (w : World) (gpu_ids : list Z) :
  check_dependencies w = None ->
  parse (gpus args) = Some gpu_ids ->
  first_invalid (device_count w) gpu_ids = None ->
  run_acquire args w
  = match allocate_all w (memory args) 0 gpu_ids
            (emit (Printed (MsgAllocating (memory args) gpu_ids)) initial) with
    | (st, Raise e) => (st, Raise e)
    | (st, Return _) => (st, Return gpu_ids)
    end.
Proof.
  intros Hdeps Hparse Hvalid. unfold acquire.
  rewrite Hdeps, Hparse, Hvalid.
  destruct (allocate_all _ _ _ _ _) as [st [[]|e]]; reflexivity.
Qed.

(** The first index at which a test fails is unique. *)
Lemma first_failure_unique (ok : nat -> bool) (j k : nat) :
  (forall i, (i < j)%nat -> ok i = true) -> ok j = false ->
  (forall i, (i < k)%nat -> ok i = true) -> ok k = false ->
  j = k.
Proof.
  intros Hj Fj Hk Fk.
  destruct (Nat.lt_trichotomy j k) as [L | [E | L]]; [|exact E|].
  - rewrite (Hk j L) in Fj. discriminate.
  - rewrite (Hj k L) in Fk. discriminate.
Qed.

(** [C1] Rollback: when the [k]-th acquisition is the first to fail,
    the [k] tensors acquired before it are exactly the ones dropped by
    [tensors.clear()], so as many reservations are released as were
    acquired; none is held when the process exits; the hold loop is
    never started; the exit status is 1. *)
Theorem rollback_releases_all (args : Args) (w : World) (ticks : list tick)
    (gpu_ids : list Z) (k : nat) :
  check_dependencies w = None ->
  parse (gpus args) = Some gpu_ids ->
  first_invalid (device_count w) gpu_ids = None ->
  (k < List.length gpu_ids)%nat ->
  (forall i, (i < k)%nat -> acquires w (memory args) i (nth i gpu_ids 0) = true) ->
  acquires w (memory args) k (nth k gpu_ids 0) = false ->
  List.length (acquired (trace (final (run_main args w ticks)))) = k /\
  released (trace (final (run_main args w ticks)))
  = acquired (trace (final (run_main args w ticks))) /\
  List.length (released (trace (final (run_main args w ticks))))
  = List.length (acquired (trace (final (run_main args w ticks)))) /\
  tensors (final (run_main args w ticks)) = [] /\
  hold_started (trace (final (run_main args w ticks))) = false /\
  outcome (run_main args w ticks) = Exited 1.
Proof.
  intros Hdeps Hparse Hvalid Hk Hbefore Hat. set (r := run_main args w ticks).
  assert (Hacq := acquire_valid args w gpu_ids Hdeps Hparse Hvalid).
  destruct (allocate_all w (memory args) 0 gpu_ids
              (emit (Printed (MsgAllocating (memory args) gpu_ids)) initial))
    as [st res] eqn:Hall.
  destruct (allocate_all_spec _ _ _ _ _ _ _ Hall) as (evs & Htr & _ & Hhold & _ & Hres).
  destruct res as [u|e].
  - destruct Hres as (_ & _ & _ & _ & Hok).
    specialize (Hok k Hk). simpl in Hok. congruence.
  - destruct Hres as (j & Hj & Hbefore' & Hat' & Hlen & Hend).
    assert (j = k) by
      (apply (first_failure_unique (fun i => acquires w (memory args) i (nth i gpu_ids 0)));
       assumption).
    subst j.
    assert (Hfinal : final r = match e with SystemExit _ => st | _ => emit (Traceback e) st end
                     /\ outcome r = Exited (exit_status_of_exn e)).
    { subst r. unfold main. rewrite Hacq.
      destruct e; split; reflexivity. }
    destruct Hfinal as [Hfin Hout]. rewrite Hout.
    destruct Hend as [(-> & Hts & Hrel) | (Hnum & Hts & Hrel)].
    + rewrite Hfin, Hts, Htr.
      rewrite !acquired_app, !released_app, !hold_started_app, Hrel, Hhold. conj.
    + assert (k = 0%nat).
      { destruct k as [|k']; [reflexivity|].
        specialize (Hbefore 0%nat ltac:(lia)).
        rewrite (acquires_needs_size w _ 0 _ e Hnum) in Hbefore. discriminate. }
      subst k.
      assert (Hnil : acquired evs = []) by now apply length_zero_iff_nil.
      assert (Htrace : trace (final r) = trace st ++ [Traceback e]
                       /\ tensors (final r) = tensors st)
        by (rewrite Hfin; destruct (num_elements_raises _ _ Hnum) as [-> | ->];
            split; reflexivity).
      destruct Htrace as [Htrace Htens].
      rewrite Htrace, Htens, Hts, Htr.
      rewrite !acquired_app, !released_app, !hold_started_app, Hrel, Hnil, Hhold.
      destruct (num_elements_raises _ _ Hnum) as [-> | ->]; conj.
Qed.

End Acquisition.

(** ** The hold loop, one statement at a time *)

Lemma step_signal (args : Args) (w : World) (p : pc) (t : tick) (st : state) (s : signal) :
  sig t = Some s ->
  step args w p t st
  = ({| tensors := [];
        trace := trace st ++ [Handler s p; Printed MsgReleasing; Cleared (tensors st);
                              EmptyCache; Printed MsgDone];
        clock := clock st |},
     Throw (SystemExit 0)).
Proof.
  intros H. unfold step, signal_handler, emit, clear. rewrite H. simpl.
  now rewrite <- !app_assoc.
Qed.

Lemma step_next (args : Args) (w : World) (p p' : pc) (t : tick) (st st' : state) :
  step args w p t st = (st', Next p') ->
  sig t = None /\
  exists evs, forallb is_idle_event evs = true /\ trace st' = trace st ++ evs /\
              List.length (tensors st') = List.length (tensors st).
Proof.
  unfold step. destruct (sig t) as [s|]; [intros H; inversion H|].
  intros H. split; [reflexivity|].
  destruct p as [ |i|i| ]; simpl in H.
  - inversion H; subst. exists [Slept 10]. conj.
  - destruct (fault t); inversion H; subst. exists []. simpl.
    rewrite app_nil_r, update_nth_length. conj.
  - destruct (fault t); inversion H; subst. exists [Touched i]. simpl.
    rewrite update_nth_length. conj.
  - destruct (timeout_reached _ _ _); inversion H; subst.
    exists [Checked (clock st) false]. conj.
Qed.

Lemma timeout_reached_iff (seconds : Z) (start_time now : Q) :
  timeout_reached seconds start_time now = true
  <-> 0 < seconds /\ (inject_Z seconds <= now - start_time)%Q.
Proof.
  unfold timeout_reached. now rewrite andb_true_iff, Z.ltb_lt, Qle_bool_iff.
Qed.

Lemma step_break (args : Args) (w : World) (p : pc) (t : tick) (st st' : state) :
  step args w p t st = (st', Break) ->
  sig t = None /\ p = AtCheck /\
  timeout_reached (duration args) (start_clock w) (clock st) = true /\
  st' = emit (Printed (MsgDurationReached (duration args)))
          (emit (Checked (clock st) true) st).
Proof.
  unfold step. destruct (sig t) as [s|]; [intros H; inversion H|].
  destruct p as [ |i|i| ]; simpl; intros H.
  - discriminate.
  - destruct (fault t); discriminate.
  - destruct (fault t); discriminate.
  - destruct (timeout_reached _ _ _) eqn:T; inversion H. conj.
Qed.

Lemma step_throw (args : Args) (w : World) (p : pc) (t : tick) (st st' : state) (e : exn) :
  step args w p t st = (st', Throw e) ->
  (exists s, sig t = Some s /\ e = SystemExit 0 /\ tensors st' = [] /\
             trace st' = trace st ++ [Handler s p; Printed MsgReleasing; Cleared (tensors st);
                                      EmptyCache; Printed MsgDone])
  \/ (sig t = None /\ fault t = true /\ e = RuntimeError false /\ st' = st /\
      exists i, p = AtAdd i \/ p = AtSub i).
Proof.
  destruct (sig t) as [s|] eqn:S.
  - rewrite (step_signal args w p t st s S). intros H; inversion H; subst.
    left. exists s. conj.
  - unfold step. rewrite S. intros H. right.
    destruct p as [ |i|i| ]; simpl in H; try discriminate.
    + destruct (fault t); inversion H; subst. conj. exists i; auto.
    + destruct (fault t); inversion H; subst. conj. exists i; auto.
    + destruct (timeout_reached _ _ _); discriminate.
Qed.

Lemma hold_loop_app (args : Args) (w : World) (a b : list tick) :
  forall p st,
    hold_loop args w p (a ++ b) st
    = match hold_loop args w p a st with
      | (st', LoopPending p') => hold_loop args w p' b st'
      | ended => ended
      end.
Proof.
  induction a as [|t rest IH]; intros p st; simpl; [reflexivity|].
  destruct (step args w p t st) as [st1 [p1| |e]]; auto.
Qed.

(** Everything a run of the loop can have done. *)
Lemma hold_loop_spec (args : Args) (w : World) (ticks : list tick) :
  forall p st st' fin,
    hold_loop args w p ticks st = (st', fin) ->
    exists evs,
      forallb is_idle_event evs = true /\
      match fin with
      | LoopPending _ =>
          trace st' = trace st ++ evs /\
          List.length (tensors st') = List.length (tensors st)
      | LoopBreak =>
          exists now,
            timeout_reached (duration args) (start_clock w) now = true /\
            trace st' = trace st ++ evs ++ [Checked now true;
                                            Printed (MsgDurationReached (duration args))] /\
            List.length (tensors st') = List.length (tensors st)
      | LoopRaise e =>
          (e = SystemExit 0 /\ tensors st' = [] /\
           exists s p' held,
             List.length held = List.length (tensors st) /\
             trace st' = trace st ++ evs ++ [Handler s p'; Printed MsgReleasing; Cleared held;
                                             EmptyCache; Printed MsgDone])
          \/ (e = RuntimeError false /\ trace st' = trace st ++ evs /\
              List.length (tensors st') = List.length (tensors st) /\
              Exists (fun t => fault t = true) ticks)
      end.
Proof.
  induction ticks as [|t rest IH]; intros p st st' fin H; simpl in H.
  - inversion H; subst. exists []. rewrite app_nil_r. conj.
  - destruct (step args w p t st) as [st1 [p1| |e]] eqn:Hstep.
    + apply step_next in Hstep. destruct Hstep as (_ & ev1 & Hidle1 & Htr1 & Hlen1).
      apply IH in H. destruct H as (evs & Hidle & Hfin).
      exists (ev1 ++ evs). rewrite forallb_app, Hidle1, Hidle. split; [reflexivity|].
      rewrite Htr1, Hlen1 in Hfin.
      destruct fin as [ |e|p'].
      * destruct Hfin as (now & Hto & Htr & Hlen). exists now. conj.
        rewrite Htr. now rewrite <- !app_assoc.
      * destruct Hfin as [(He & Hts & s & p' & held & Hlen & Htr)
                         | (He & Htr & Hlen & Hfault)];
          [left | right]; conj.
        -- exists s, p', held. conj. rewrite Htr. now rewrite <- !app_assoc.
        -- rewrite Htr. now rewrite <- !app_assoc.
        -- now apply Exists_cons_tl.
      * destruct Hfin as (Htr & Hlen). conj. rewrite Htr. now rewrite <- !app_assoc.
    + inversion H; subst. apply step_break in Hstep.
      destruct Hstep as (_ & _ & Hto & ->). exists []. split; [reflexivity|].
      exists (clock st). simpl. rewrite <- !app_assoc. conj.
    + inversion H; subst. apply step_throw in Hstep.
      destruct Hstep as [(s & _ & -> & Hts & Htr) | (_ & Hfault & -> & -> & _)];
        exists []; (split; [reflexivity|]); [left | right].
      * conj. exists s, p, (tensors st). conj.
      * rewrite app_nil_r. conj. now apply Exists_cons_hd.
Qed.

(** ** Contents of the tensors during the hold *)

Lemma for_head_contents (i : nat) (st : state) (ts : list tensor) :
  contents_at (for_head i st) ts = ts.
Proof. unfold for_head. now destruct (_ <? _)%nat. Qed.

Lemma step_contents (args : Args) (w : World) (ts : list tensor) (p p' : pc) (t : tick)
    (st st' : state) :
  Forall all_ones ts ->
  tensors st = contents_at p ts ->
  step args w p t st = (st', Next p') ->
  tensors st' = contents_at p' ts.
Proof.
  intros Hones Hinv. unfold step. destruct (sig t); [discriminate|].
  destruct p as [ |i|i| ]; cbn [exec contents_at] in *; intros H.
  - injection H as <- <-. now rewrite for_head_contents.
  - destruct (fault t); [discriminate|]. injection H as <- <-. simpl. now rewrite Hinv.
  - destruct (fault t); [discriminate|]. injection H as <- <-.
    rewrite for_head_contents. simpl.
    rewrite Hinv, update_nth_twice.
    apply (update_nth_id all_ones); [apply keep_alive_ones | exact Hones].
  - destruct (timeout_reached _ _ _); [discriminate|]. injection H as <- <-. exact Hinv.
Qed.

Lemma hold_loop_contents (args : Args) (w : World) (ts : list tensor) (ticks : list tick) :
  Forall all_ones ts ->
  forall p st st' p',
    tensors st = contents_at p ts ->
    hold_loop args w p ticks st = (st', LoopPending p') ->
    tensors st' = contents_at p' ts.
Proof.
  intros Hones. induction ticks as [|t rest IH]; intros p st st' p' Hinv H; simpl in H.
  - inversion H; subst. exact Hinv.
  - destruct (step args w p t st) as [st1 [p1| |e]] eqn:Hstep; try discriminate.
    eapply IH; [|exact H]. eapply step_contents; eassumption.
Qed.

(** ** The timeout *)

(** The loop is left through its [break] exactly when some prefix of the
    ticks brings it, still running, to the timeout test, and the test
    succeeds there with no signal delivered at that moment. *)
Lemma hold_loop_break (args : Args) (w : World) (ticks : list tick) :
  forall p st,
    snd (hold_loop args w p ticks st) = LoopBreak
    <-> exists pre t post st_c,
          ticks = pre ++ t :: post /\
          hold_loop args w p pre st = (st_c, LoopPending AtCheck) /\
          sig t = None /\
          timeout_reached (duration args) (start_clock w) (clock st_c) = true.
Proof.
  induction ticks as [|t rest IH]; intros p st.
  - split; [discriminate|].
    intros (pre & t & post & st_c & E & _). destruct pre; discriminate.
  - split.
    + cbn [hold_loop]. destruct (step args w p t st) as [st1 [p1| |e]] eqn:Hstep.
      * intros H. apply IH in H. destruct H as (pre & t' & post & st_c & -> & Hpre & Hrest).
        exists (t :: pre), t', post, st_c. split; [reflexivity|]. split; [|exact Hrest].
        cbn [hold_loop]. now rewrite Hstep.
      * intros _. apply step_break in Hstep. destruct Hstep as (Hsig & -> & Hto & _).
        exists [], t, rest, st. conj.
      * discriminate.
    + intros (pre & t' & post & st_c & E & Hpre & Hsig & Hto).
      rewrite E, hold_loop_app, Hpre. cbn [hold_loop]. unfold step. rewrite Hsig.
      cbn [exec]. now rewrite Hto.
Qed.

(** [C4, as the code has it] The timeout is not watched continuously: it
    is tested once per iteration, after the sleep and the keep-alive pass.
    The loop is left through its [break] exactly when it reaches that
    test, still running, no signal being delivered at that moment, with a
    positive duration and at least that many seconds on the clock since
    the loop was entered; what happens to the clock between two tests
    does not matter.  With duration 0 the [break] is never taken, and as
    long as no signal and no backend failure occurs the loop keeps
    running, however long. *)
Theorem timeout_at_the_test (args : Args) (w : World) (p : pc) (st : state)
    (ticks : list tick) :
  (snd (hold_loop args w p ticks st) = LoopBreak
   <-> exists pre t post st_c,
         ticks = pre ++ t :: post /\
         hold_loop args w p pre st = (st_c, LoopPending AtCheck) /\
         sig t = None /\
         0 < duration args /\
         (inject_Z (duration args) <= clock st_c - start_clock w)%Q) /\
  snd (hold_loop (with_duration 0 args) w p ticks st) <> LoopBreak /\
  exists p', snd (hold_loop (with_duration 0 args) w p (map calm ticks) st) = LoopPending p'.
Proof.
  split; [|split].
  - rewrite hold_loop_break. split.
    + intros (pre & t & post & st_c & E & Hpre & Hsig & Hto).
      apply timeout_reached_iff in Hto. exists pre, t, post, st_c. conj; apply Hto.
    + intros (pre & t & post & st_c & E & Hpre & Hsig & Hd & He).
      exists pre, t, post, st_c. conj. apply timeout_reached_iff. conj.
  - destruct (hold_loop (with_duration 0 args) w p ticks st) as [st' fin] eqn:Hloop.
    destruct (hold_loop_spec _ _ _ _ _ _ _ Hloop) as (evs & _ & Hfin).
    simpl. intros ->. destruct Hfin as (now & Hto & _).
    apply timeout_reached_iff in Hto. simpl in Hto. lia.
  - destruct (hold_loop (with_duration 0 args) w p (map calm ticks) st)
      as [st' fin] eqn:Hloop.
    destruct (hold_loop_spec _ _ _ _ _ _ _ Hloop) as (evs & _ & Hfin).
    destruct fin as [ |e|p']; simpl.
    + destruct Hfin as (now & Hto & _).
      apply timeout_reached_iff in Hto. simpl in Hto. lia.
    + exfalso. clear Hfin. revert p st Hloop.
      induction ticks as [|t' rest IH]; intros p st Hloop; simpl in Hloop; [discriminate|].
      destruct (step (with_duration 0 args) w p (calm t') st) as [st1 [p1| |e1]] eqn:Hstep.
      * eapply IH; exact Hloop.
      * discriminate.
      * apply step_throw in Hstep.
        destruct Hstep as [(s & Hs & _) | (_ & Hf & _)]; discriminate.
    + now exists p'.
Qed.

(** ** Whole runs *)

Lemma idle_not_stop (evs : list event) :
  forallb is_idle_event evs = true -> existsb is_stop_event evs = false.
Proof.
  induction evs as [|e rest IH]; cbn [forallb existsb]; [reflexivity|].
  rewrite andb_true_iff. intros [He Hrest]. rewrite (IH Hrest), orb_false_r.
  destruct e as [ | | | | | | | |now [|] | | ]; simpl in *; congruence.
Qed.

Lemma idle_quiet (evs : list event) :
  forallb is_idle_event evs = true ->
  acquired evs = [] /\ released evs = [] /\ clear_calls evs = 0%nat.
Proof.
  induction evs as [|e rest IH]; cbn [forallb]; [intros _; conj|].
  rewrite andb_true_iff. intros [He Hrest]. destruct (IH Hrest) as (Ha & Hr & Hc).
  unfold clear_calls in *. destruct e; simpl in *; try discriminate; conj.
Qed.

Lemma not_hold_not_stop (evs : list event) :
  hold_started evs = false -> existsb is_stop_event evs = false.
Proof.
  unfold hold_started.
  induction evs as [|e rest IH]; cbn [existsb]; [reflexivity|].
  rewrite orb_false_iff. intros [He Hrest]. rewrite (IH Hrest), orb_false_r.
  destruct e as [ | | | | | | | |now [|] | | ]; simpl in *; congruence.
Qed.

Lemma timed_out_stop (tr : list event) : timed_out tr -> existsb is_stop_event tr = true.
Proof.
  intros [now H]. apply existsb_exists. exists (Checked now true). conj.
Qed.

Lemma signalled_stop (tr : list event) : signalled tr -> existsb is_stop_event tr = true.
Proof.
  intros (s & p & H). apply existsb_exists. exists (Handler s p). conj.
Qed.

Section Runs.

Variable str_strip : string -> string.
Variable str_to_int : string -> option Z.

Local Abbreviation parse := (parse_gpu_ids str_strip str_to_int).
Local Abbreviation run_acquire := (acquire str_strip str_to_int).
Local Abbreviation run_main := (main str_strip str_to_int).

(** The run up to the hold loop. *)
Lemma acquire_spec (args : Args) (w : World) (st : state) (res : py_result (list Z)) :
  run_acquire args w = (st, res) ->
  hold_started (trace st) = false /\
  match res with
  | Return ids =>
      check_dependencies w = None /\ parse (gpus args) = Some ids /\
      first_invalid (device_count w) ids = None /\
      tensors st = acquired (trace st) /\ map device (tensors st) = ids /\
      Forall all_ones (tensors st) /\ released (trace st) = [] /\
      clear_calls (trace st) = 0%nat /\
      forall j, (j < List.length ids)%nat -> acquires w (memory args) j (nth j ids 0) = true
  | Raise e =>
      exit_status_of_exn e = 1 /\
      (tensors st = [] \/ exists ids, parse (gpus args) = Some ids /\
                                      num_elements (memory args) = Raise e) /\
      (check_dependencies w = None ->
       forall ids, parse (gpus args) = Some ids ->
       first_invalid (device_count w) ids = None ->
       exists k, (k < List.length ids)%nat /\ acquires w (memory args) k (nth k ids 0) = false)
  end.
Proof.
  unfold acquire.
  destruct (check_dependencies w) as [m|] eqn:Hdeps.
  { intros H; inversion H; subst. conj. - now left. - discriminate. }
  destruct (parse (gpus args)) as [ids|] eqn:Hparse.
  2:{ intros H; inversion H; subst. conj. - now left. - discriminate. }
  destruct (first_invalid (device_count w) ids) as [g|] eqn:Hvalid.
  { intros H; inversion H; subst. conj. - now left.
    - intros _ ids' E. inversion E; subst. congruence. }
  destruct (allocate_all _ _ _ _ _) as [st1 res1] eqn:Hall.
  destruct (allocate_all_spec _ _ _ _ _ _ _ Hall)
    as (evs & Htr & _ & Hhold & Hclr & Hres).
  simpl in Htr.
  destruct res1 as [[]|e]; intros H; inversion H; subst; clear H; rewrite Htr.
  - destruct Hres as (Hts & Hrel & Hdev & Hones & Hok).
    simpl in Hts. rewrite Hts. conj.
  - destruct Hres as (j & Hj & _ & Hat & _ & Hend). conj.
    + destruct Hend as [(-> & _) | (Hnum & _)]; [reflexivity|].
      destruct (num_elements_raises _ _ Hnum) as [-> | ->]; reflexivity.
    + destruct Hend as [(_ & Hts & _) | (Hnum & _)]; [now left|].
      right. exists ids. conj.
    + intros _ ids' E _. inversion E; subst. exists j. conj.
Qed.

(** How [main] ends, from how the loop ended. *)
Lemma main_held (args : Args) (w : World) (ticks : list tick) (st : state) (ids : list Z) :
  run_acquire args w = (st, Return ids) ->
  run_main args w ticks
  = match hold_loop args w AtSleep ticks (announce args w ids st) with
    | (st', LoopBreak) => {| final := cleanup st'; outcome := Exited 0 |}
    | (st', LoopRaise KeyboardInterrupt) => {| final := cleanup st'; outcome := Exited 0 |}
    | (st', LoopRaise e) => die e st'
    | (st', LoopPending p) => {| final := st'; outcome := Holding p |}
    end.
Proof.
  intros H. unfold main, hold_and_release. rewrite H.
  destruct (hold_loop _ _ _ _ _) as [st' [ |[]|p]]; reflexivity.
Qed.

Lemma announce_spec (args : Args) (w : World) (ids : list Z) (st : state) :
  tensors (announce args w ids st) = tensors st /\
  clock (announce args w ids st) = start_clock w /\
  exists says, trace (announce args w ids st)
               = trace st ++ [Printed (MsgHolding ids); Printed says; HandlersInstalled].
Proof.
  unfold announce, enter, emit. simpl. conj.
  eexists. now rewrite <- !app_assoc.
Qed.

Lemma cleanup_spec (st : state) :
  tensors (cleanup st) = [] /\
  trace (cleanup st) = trace st ++ [Cleared (tensors st); EmptyCache; Printed MsgReleased].
Proof.
  unfold cleanup, emit, clear. simpl. now rewrite <- !app_assoc.
Qed.

(** The four ways a run that reached the loop can stand or end. *)
Lemma held_run_shapes (args : Args) (w : World) (ticks : list tick) (st0 : state)
    (ids : list Z) :
  run_acquire args w = (st0, Return ids) ->
  exists evs,
    forallb is_idle_event evs = true /\
    ((exists p,
        outcome (run_main args w ticks) = Holding p /\
        trace (final (run_main args w ticks)) = trace (announce args w ids st0) ++ evs /\
        List.length (tensors (final (run_main args w ticks))) = List.length ids)
     \/ (exists now held,
          outcome (run_main args w ticks) = Exited 0 /\
          timeout_reached (duration args) (start_clock w) now = true /\
          trace (final (run_main args w ticks))
          = trace (announce args w ids st0) ++ evs
            ++ [Checked now true; Printed (MsgDurationReached (duration args));
                Cleared held; EmptyCache; Printed MsgReleased] /\
          List.length held = List.length ids /\
          tensors (final (run_main args w ticks)) = [])
     \/ (exists s p held,
          outcome (run_main args w ticks) = Exited 0 /\
          trace (final (run_main args w ticks))
          = trace (announce args w ids st0) ++ evs
            ++ [Handler s p; Printed MsgReleasing; Cleared held; EmptyCache;
                Printed MsgDone] /\
          List.length held = List.length ids /\
          tensors (final (run_main args w ticks)) = [])
     \/ (outcome (run_main args w ticks) = Exited 1 /\
         trace (final (run_main args w ticks))
         = trace (announce args w ids st0) ++ evs ++ [Traceback (RuntimeError false)] /\
         List.length (tensors (final (run_main args w ticks))) = List.length ids /\
         Exists (fun t => fault t = true) ticks)).
Proof.
  intros Hacq. rewrite (main_held args w ticks st0 ids Hacq).
  destruct (acquire_spec _ _ _ _ Hacq) as (_ & _ & _ & _ & _ & Hdev & _).
  destruct (announce_spec args w ids st0) as (Hts & _ & _).
  assert (Hlen : List.length (tensors (announce args w ids st0)) = List.length ids)
    by (rewrite Hts, <- Hdev; now rewrite length_map).
  destruct (hold_loop args w AtSleep ticks (announce args w ids st0)) as [st' fin] eqn:Hloop.
  destruct (hold_loop_spec _ _ _ _ _ _ _ Hloop) as (evs & Hidle & Hfin).
  exists evs. split; [exact Hidle|].
  destruct fin as [ |e|p].
  - destruct Hfin as (now & Hto & Htr & Hl). right; left.
    exists now, (tensors st'). cbn [final outcome].
    destruct (cleanup_spec st') as [-> ->]. rewrite Htr, <- !app_assoc. conj. congruence.
  - destruct Hfin as [(-> & Hnil & s & p & held & Hl & Htr) | (-> & Htr & Hl & Hfault)].
    + right; right; left. exists s, p, held. cbn [die final outcome]. conj. congruence.
    + right; right; right. cbn [die final outcome emit trace tensors].
      rewrite Htr, <- !app_assoc. conj. congruence.
  - destruct Hfin as (Htr & Hl). left. exists p. cbn [final outcome]. conj. congruence.
Qed.

(** A run that fails before the loop. *)
Lemma failed_run (args : Args) (w : World) (ticks : list tick) (st : state) (e : exn) :
  run_acquire args w = (st, Raise e) ->
  outcome (run_main args w ticks) = Exited 1 /\
  hold_started (trace (final (run_main args w ticks))) = false /\
  tensors (final (run_main args w ticks)) = tensors st /\
  acquired (trace (final (run_main args w ticks))) = acquired (trace st) /\
  released (trace (final (run_main args w ticks))) = released (trace st).
Proof.
  intros Hacq. destruct (acquire_spec _ _ _ _ Hacq) as (Hhold & Hstatus & _).
  unfold main. rewrite Hacq.
  destruct e; simpl in *; rewrite ?acquired_app, ?released_app, ?hold_started_app, ?Hhold,
    ?app_nil_r; conj; congruence.
Qed.

(** What the trace of a run that reached the loop contains. *)
Lemma held_trace (args : Args) (w : World) (st0 : state) (ids : list Z)
    (evs tail : list event) :
  run_acquire args w = (st0, Return ids) ->
  forallb is_idle_event evs = true ->
  acquired (trace (announce args w ids st0) ++ evs ++ tail) = tensors st0 ++ acquired tail /\
  released (trace (announce args w ids st0) ++ evs ++ tail) = released tail /\
  clear_calls (trace (announce args w ids st0) ++ evs ++ tail) = clear_calls tail /\
  hold_started (trace (announce args w ids st0) ++ evs ++ tail) = true /\
  existsb is_stop_event (trace (announce args w ids st0) ++ evs ++ tail)
  = existsb is_stop_event tail.
Proof.
  intros Hacq Hidle.
  destruct (acquire_spec _ _ _ _ Hacq) as (Hhold & _ & _ & _ & Hts & _ & _ & Hrel & Hclr & _).
  destruct (announce_spec args w ids st0) as (_ & _ & says & ->).
  destruct (idle_quiet _ Hidle) as (Ha & Hr & Hc).
  rewrite !acquired_app, !released_app, !clear_calls_app, !hold_started_app, !existsb_app.
  rewrite Ha, Hr, Hc, Hrel, Hclr, <- Hts, (idle_not_stop _ Hidle), (not_hold_not_stop _ Hhold).
  simpl. rewrite app_nil_r, orb_true_r. conj.
Qed.


(** [C10, as the code has it] A duration of zero or less is a duration
    of zero: the run is the same, message for message, and the timeout
    never fires.  The loop is then left in one of two ways: through the
    signal handler, with status 0; or, no signal having been handled,
    through a [RuntimeError] of a keep-alive operation, which ends the
    process with a traceback and status 1. *)
Theorem nonpositive_duration_is_zero (args : Args) (w : World) (ticks : list tick) :
  duration args <= 0 ->
  run_main args w ticks = run_main (with_duration 0 args) w ticks /\
  ~ timed_out (trace (final (run_main args w ticks))) /\
  (forall code,
     hold_started (trace (final (run_main args w ticks))) = true ->
     outcome (run_main args w ticks) = Exited code ->
     (code = 0 /\ signalled (trace (final (run_main args w ticks))))
     \/ (code = 1 /\
         (exists oom,
            In (Traceback (RuntimeError oom)) (trace (final (run_main args w ticks)))) /\
         ~ signalled (trace (final (run_main args w ticks))))).
Proof.
  intros Hd.
  assert (Hpos : (0 <? duration args) = false) by (apply Z.ltb_ge; exact Hd).
  assert (Hto : forall start now, timeout_reached (duration args) start now = false)
    by (intros; unfold timeout_reached; now rewrite Hpos).
  split; [|split].
  - (* the same run as with 0 *)
    set (zero := with_duration 0 args).
    assert (Hstep : forall p t st, step args w p t st = step zero w p t st).
    { intros p t st. unfold step, exec. simpl. rewrite Hto.
      destruct (sig t), p; reflexivity. }
    assert (Hloop : forall l p st, hold_loop args w p l st = hold_loop zero w p l st).
    { induction l as [|t rest IH]; intros p st; simpl; [reflexivity|].
      rewrite Hstep. destruct (step zero w p t st) as [st1 [p1| |e]]; auto. }
    unfold main, hold_and_release, acquire, announce. simpl.
    rewrite Hpos. simpl.
    destruct (check_dependencies w); [reflexivity|].
    destruct (parse (gpus args)) as [ids|]; [|reflexivity].
    destruct (first_invalid (device_count w) ids); [reflexivity|].
    destruct (allocate_all _ _ _ _ _) as [st [[]|e]]; [|reflexivity].
    now rewrite Hloop.
  - (* no timeout *)
    intros Hstop.
    destruct (run_acquire args w) as [st0 [ids|e]] eqn:Hacq.
    2:{ destruct (failed_run args w ticks st0 e Hacq) as (_ & Hhold & _).
        apply timed_out_stop in Hstop.
        rewrite (not_hold_not_stop _ Hhold) in Hstop. discriminate. }
    destruct (held_run_shapes args w ticks st0 ids Hacq) as (evs & Hidle & Hshape).
    destruct Hshape as [(p & Hout & Htr & Hlen)
                       | [(now & held & Hout & Hto' & Htr & Hlen & Hnil)
                         | [(s & p & held & Hout & Htr & Hlen & Hnil)
                           | (Hout & Htr & Hlen & _)]]].
    + apply timed_out_stop in Hstop. rewrite Htr in Hstop.
      destruct (held_trace args w st0 ids evs [] Hacq Hidle) as (_ & _ & _ & _ & E).
      rewrite app_nil_r in E. rewrite E in Hstop. discriminate.
    + rewrite Hto in Hto'. discriminate.
    + destruct Hstop as [now Hin]. rewrite Htr in Hin.
      destruct (announce_spec args w ids st0) as (_ & _ & says & Hann).
      destruct (acquire_spec _ _ _ _ Hacq) as (Hhold & _).
      assert (Hstop : existsb is_stop_event (trace st0 ++ evs) = true).
      { apply existsb_exists. exists (Checked now true). split; [|reflexivity].
        rewrite Hann in Hin. rewrite <- app_assoc in Hin.
        apply in_app_or in Hin. destruct Hin as [Hin | Hin]; [apply in_or_app; now left|].
        simpl in Hin. destruct Hin as [Hin | [Hin | [Hin | Hin]]]; try discriminate.
        apply in_app_or in Hin. destruct Hin as [Hin | Hin]; [apply in_or_app; now right|].
        simpl in Hin. repeat (destruct Hin as [Hin | Hin]; try discriminate). contradiction. }
      rewrite existsb_app, (not_hold_not_stop _ Hhold), (idle_not_stop _ Hidle) in Hstop.
      discriminate.
    + apply timed_out_stop in Hstop. rewrite Htr in Hstop.
      destruct (held_trace args w st0 ids evs [Traceback (RuntimeError false)] Hacq Hidle)
        as (_ & _ & _ & _ & E).
      rewrite E in Hstop. discriminate.
  - (* only the handler ends the loop *)
    intros code Hheld Hexit.
    destruct (run_acquire args w) as [st0 [ids|e]] eqn:Hacq.
    2:{ destruct (failed_run args w ticks st0 e Hacq) as (_ & Hhold & _). congruence. }
    destruct (held_run_shapes args w ticks st0 ids Hacq) as (evs & Hidle & Hshape).
    destruct Hshape as [(p & Hout & Htr & Hlen)
                       | [(now & held & Hout & Hto' & Htr & Hlen & Hnil)
                         | [(s & p & held & Hout & Htr & Hlen & Hnil)
                           | (Hout & Htr & Hlen & Hfault)]]].
    + congruence.
    + rewrite Hto in Hto'. discriminate.
    + left. split; [congruence|]. exists s, p. rewrite Htr.
      apply in_or_app. right. apply in_or_app. right. now left.
    + right. split; [congruence|]. split.
      * exists false. rewrite Htr.
        apply in_or_app. right. apply in_or_app. right. now left.
      * intros Hsig. apply signalled_stop in Hsig. rewrite Htr in Hsig.
        destruct (held_trace args w st0 ids evs [Traceback (RuntimeError false)] Hacq Hidle)
          as (_ & _ & _ & _ & E).
        rewrite E in Hsig. discriminate.
Qed.

(** [C6, as the code has it] Signals are not polled.  Wherever the loop
    stands when a signal is delivered -- asleep, in the middle of the
    keep-alive pass, at the timeout test -- the handler runs there and
    then: it drops every tensor held, empties the cache and exits with
    status 0. *)
Theorem signal_handled_where_it_arrives (args : Args) (w : World) (ticks : list tick)
    (p : pc) (t : tick) (s : signal) :
  outcome (run_main args w ticks) = Holding p ->
  sig t = Some s ->
  outcome (run_main args w (ticks ++ [t])) = Exited 0 /\
  tensors (final (run_main args w (ticks ++ [t]))) = [] /\
  trace (final (run_main args w (ticks ++ [t])))
  = trace (final (run_main args w ticks))
    ++ [Handler s p; Printed MsgReleasing;
        Cleared (tensors (final (run_main args w ticks)));
        EmptyCache; Printed MsgDone].
Proof.
  intros Hhold Hsig.
  destruct (run_acquire args w) as [st0 [ids|e]] eqn:Hacq.
  2:{ destruct (failed_run args w ticks st0 e Hacq) as (Hout & _). congruence. }
  rewrite (main_held args w ticks st0 ids Hacq) in Hhold |- *.
  rewrite (main_held args w (ticks ++ [t]) st0 ids Hacq), hold_loop_app.
  destruct (hold_loop args w AtSleep ticks (announce args w ids st0)) as [st' fin].
  destruct fin as [ |e|p']; [discriminate | destruct e; discriminate |].
  simpl in Hhold. inversion Hhold; subst p'.
  cbn [hold_loop]. rewrite (step_signal args w p t st' s Hsig). cbn. conj.
Qed.


(** [C9] The keep-alive leaves the contents alone.  Each tensor the run
    holds was filled by [allocate_memory], and on those contents adding
    0.0001 and subtracting it again gives back every element bit for bit.
    So wherever the loop stands, the list holds exactly the contents
    stored at acquisition -- except between the two halves of the
    keep-alive of one tensor, which then has the constant added. *)
Theorem keep_alive_preserves_contents (args : Args) (w : World) (ticks : list tick)
    (p : pc) :
  outcome (run_main args w ticks) = Holding p ->
  Forall (fun t => keep_alive t = t) (acquired (trace (final (run_main args w ticks)))) /\
  tensors (final (run_main args w ticks))
  = contents_at p (acquired (trace (final (run_main args w ticks)))).
Proof.
  intros Hhold.
  destruct (run_acquire args w) as [st0 [ids|e]] eqn:Hacq.
  2:{ destruct (failed_run args w ticks st0 e Hacq) as (Hout & _). congruence. }
  destruct (acquire_spec _ _ _ _ Hacq) as (_ & _ & _ & _ & _ & _ & Hones & _).
  destruct (announce_spec args w ids st0) as (Hts & _ & _).
  destruct (held_run_shapes args w ticks st0 ids Hacq) as (evs & Hidle & Hshape).
  assert (Hacquired : acquired (trace (final (run_main args w ticks))) = tensors st0).
  { destruct Hshape as [(p0 & _ & Htr & _) | [(? & ? & Hout & _) | [(? & ? & ? & Hout & _)
                       | (Hout & _)]]]; try congruence.
    destruct (held_trace args w st0 ids evs [] Hacq Hidle) as (Ha & _).
    rewrite !app_nil_r in Ha. now rewrite Htr, Ha. }
  rewrite Hacquired. split.
  - eapply Forall_impl; [|exact Hones]. intros t. apply keep_alive_ones.
  - rewrite (main_held args w ticks st0 ids Hacq) in Hhold |- *.
    destruct (hold_loop args w AtSleep ticks (announce args w ids st0))
      as [st' fin] eqn:Hloop.
    destruct fin as [ |e|p']; [discriminate | destruct e; discriminate |].
    simpl in Hhold. injection Hhold as ->. simpl.
    eapply (hold_loop_contents args w (tensors st0) ticks Hones AtSleep); [|exact Hloop].
    exact Hts.
Qed.


End Runs.

(** ** Timing of the loop *)

Lemma timeout_reached_clock (seconds : Z) (start_time c1 c2 : Q) :
  (c1 == c2)%Q ->
  timeout_reached seconds start_time c1 = timeout_reached seconds start_time c2.
Proof.
  intros E. unfold timeout_reached. f_equal.
  apply eq_true_iff_eq. rewrite !Qle_bool_iff, E. reflexivity.
Qed.

Lemma for_head_length (i : nat) (st st' : state) :
  List.length (tensors st') = List.length (tensors st) -> for_head i st' = for_head i st.
Proof. unfold for_head. now intros ->. Qed.

(** The keep-alive pass from tensor [i] on, nothing disturbing it. *)
Lemma touches_punctual (args : Args) (w : World) (m : nat) :
  forall (i : nat) (st : state),
    (i + m)%nat = List.length (tensors st) ->
    exists st',
      (clock st' == clock st)%Q /\
      List.length (tensors st') = List.length (tensors st) /\
      (forall now b, In (Checked now b) (trace st') -> In (Checked now b) (trace st)) /\
      forall rest,
        hold_loop args w (for_head i st) (repeat punctual (2 * m) ++ rest) st
        = hold_loop args w AtCheck rest st'.
Proof.
  induction m as [|m IH]; intros i st Hlen.
  - exists st. conj; [auto|]. intros rest. simpl.
    unfold for_head. replace (i <? _)%nat with false; [reflexivity|].
    symmetry. apply Nat.ltb_ge. lia.
  - set (st2 := elapse 0 (emit (Touched i) (touch_sub i (elapse 0 (touch_add i st))))).
    assert (Hlen2 : List.length (tensors st2) = List.length (tensors st))
      by (simpl; now rewrite !update_nth_length).
    destruct (IH (S i) st2) as (st' & Hclk & Hl & Hchk & Hrun); [rewrite Hlen2; lia|].
    exists st'. conj.
    + rewrite Hclk. simpl. lra.
    + congruence.
    + intros now b Hin. apply Hchk in Hin. simpl in Hin.
      apply in_app_or in Hin. destruct Hin as [Hin | [Hin | []]]; [exact Hin | discriminate].
    + intros rest.
      replace (2 * S m)%nat with (S (S (2 * m))) by lia.
      unfold for_head at 1. replace (i <? _)%nat with true
        by (symmetry; apply Nat.ltb_lt; lia).
      cbn [repeat app hold_loop step exec punctual sig fault lag].
      rewrite <- Hrun. f_equal. apply for_head_length.
      simpl. now rewrite !update_nth_length.
Qed.

(** A whole iteration that does not reach the timeout. *)
Lemma iteration_continues (args : Args) (w : World) (st : state) :
  timeout_reached (duration args) (start_clock w) (clock st + 10) = false ->
  exists st',
    (clock st' == clock st + 10)%Q /\
    List.length (tensors st') = List.length (tensors st) /\
    forall rest,
      hold_loop args w AtSleep (punctual_run (List.length (tensors st)) 1 ++ rest) st
      = hold_loop args w AtSleep rest st'.
Proof.
  intros Hto.
  set (st1 := elapse (10 + 0) (emit (Slept 10) st)).
  destruct (touches_punctual args w (List.length (tensors st)) 0 st1)
    as (st2 & Hclk & Hlen & _ & Hrun); [reflexivity|].
  assert (Hclk2 : (clock st2 == clock st + 10)%Q) by (rewrite Hclk; simpl; lra).
  exists (elapse 0 (emit (Checked (clock st2) false) st2)). conj.
  - simpl. rewrite Hclk2. lra.
  - intros rest. unfold punctual_run.
    replace ((2 * List.length (tensors st) + 2) * 1)%nat
      with (S (2 * List.length (tensors st) + 1))%nat by lia.
    cbn [repeat]. rewrite repeat_app.
    cbn [repeat app hold_loop step exec punctual sig fault lag].
    rewrite <- app_assoc.
    replace (for_head 0 st) with (for_head 0 st1) by (now apply for_head_length).
    change (List.length (tensors st)) with (List.length (tensors st1)).
    rewrite Hrun. cbn [repeat app hold_loop step exec punctual sig fault lag].
    now rewrite (timeout_reached_clock _ _ _ _ Hclk2), Hto.
Qed.

(** A whole iteration at whose end the timeout is reached. *)
Lemma iteration_stops (args : Args) (w : World) (st : state) :
  timeout_reached (duration args) (start_clock w) (clock st + 10) = true ->
  exists st' now,
    (now == clock st + 10)%Q /\
    In (Checked now true) (trace st') /\
    forall rest,
      hold_loop args w AtSleep (punctual_run (List.length (tensors st)) 1 ++ rest) st
      = (st', LoopBreak).
Proof.
  intros Hto.
  set (st1 := elapse (10 + 0) (emit (Slept 10) st)).
  destruct (touches_punctual args w (List.length (tensors st)) 0 st1)
    as (st2 & Hclk & Hlen & _ & Hrun); [reflexivity|].
  assert (Hclk2 : (clock st2 == clock st + 10)%Q) by (rewrite Hclk; simpl; lra).
  exists (emit (Printed (MsgDurationReached (duration args)))
            (emit (Checked (clock st2) true) st2)), (clock st2).
  conj.
  - simpl. apply in_or_app. left. apply in_or_app. right. now left.
  - intros rest. unfold punctual_run.
    replace ((2 * List.length (tensors st) + 2) * 1)%nat
      with (S (2 * List.length (tensors st) + 1))%nat by lia.
    cbn [repeat]. rewrite repeat_app.
    cbn [repeat app hold_loop step exec punctual sig fault lag].
    rewrite <- app_assoc.
    replace (for_head 0 st) with (for_head 0 st1) by (now apply for_head_length).
    change (List.length (tensors st)) with (List.length (tensors st1)).
    rewrite Hrun. cbn [repeat app hold_loop step exec punctual sig fault lag].
    now rewrite (timeout_reached_clock _ _ _ _ Hclk2), Hto.
Qed.

Lemma timeout_reached_elapsed (seconds : Z) (start_time c : Q) (e : Z) :
  (c - start_time == inject_Z e)%Q ->
  timeout_reached seconds start_time c = (0 <? seconds) && (seconds <=? e).
Proof.
  intros E. unfold timeout_reached. f_equal.
  apply eq_true_iff_eq. rewrite Qle_bool_iff, E, Z.leb_le, <- Zle_Qle. reflexivity.
Qed.

Lemma punctual_run_succ (n k : nat) :
  punctual_run n (S k) = punctual_run n 1 ++ punctual_run n k.
Proof.
  unfold punctual_run. rewrite <- repeat_app. f_equal. lia.
Qed.

Lemma punctual_run_last (n k : nat) :
  punctual_run n (S k) = punctual_run n k ++ punctual_run n 1.
Proof.
  unfold punctual_run. rewrite <- repeat_app. f_equal. lia.
Qed.

(** [k] whole iterations, none of which reaches the timeout. *)
Lemma iterations_continue (args : Args) (w : World) (k : nat) :
  forall (st : state) (e : Z),
    (clock st - start_clock w == inject_Z e)%Q ->
    e + 10 * Z.of_nat k < duration args ->
    exists st',
      (clock st' - start_clock w == inject_Z (e + 10 * Z.of_nat k))%Q /\
      List.length (tensors st') = List.length (tensors st) /\
      forall rest,
        hold_loop args w AtSleep (punctual_run (List.length (tensors st)) k ++ rest) st
        = hold_loop args w AtSleep rest st'.
Proof.
  induction k as [|k IH]; intros st e He Hk.
  - exists st. conj.
    + rewrite He. now replace (e + 10 * Z.of_nat 0) with e by lia.
    + intros rest. unfold punctual_run. now rewrite Nat.mul_0_r.
  - assert (He1 : (clock st + 10 - start_clock w == inject_Z (e + 10))%Q)
      by (rewrite inject_Z_plus, <- He; change (inject_Z 10) with 10%Q; lra).
    destruct (iteration_continues args w st) as (st1 & Hclk1 & Hlen1 & Hrun1).
    { rewrite (timeout_reached_elapsed _ _ _ _ He1).
      apply andb_false_iff. right. apply Z.leb_gt. lia. }
    destruct (IH st1 (e + 10)) as (st' & Hclk & Hlen & Hrun).
    { now rewrite Hclk1. }
    { lia. }
    exists st'. conj.
    + rewrite Hclk. now replace (e + 10 + 10 * Z.of_nat k) with (e + 10 * Z.of_nat (S k)) by lia.
    + congruence.
    + intros rest. rewrite punctual_run_succ, <- app_assoc, Hrun1, <- Hlen1. apply Hrun.
Qed.

Lemma iterations_until_bounds (seconds : Z) :
  0 < seconds ->
  (1 <= iterations_until seconds)%nat /\
  10 * Z.of_nat (iterations_until seconds) - 10 < seconds <= 10 * Z.of_nat (iterations_until seconds).
Proof.
  intros Hpos. unfold iterations_until.
  pose proof (Z.div_mod (seconds + 9) 10 ltac:(lia)) as Hdm.
  pose proof (Z.mod_pos_bound (seconds + 9) 10 ltac:(lia)) as Hmod.
  assert (1 <= (seconds + 9) / 10) by lia.
  rewrite Z2Nat.id by lia. split; [|lia].
  change 1%nat with (Z.to_nat 1). apply Z2Nat.inj_le; lia.
Qed.

(** With exact timing the loop stops after as many sleeps as cover the duration. *)
Lemma punctual_timeout (args : Args) (w : World) (st : state) :
  0 < duration args ->
  (clock st - start_clock w == 0)%Q ->
  exists st' now,
    hold_loop args w AtSleep
      (punctual_run (List.length (tensors st)) (iterations_until (duration args))) st
    = (st', LoopBreak) /\
    In (Checked now true) (trace st') /\
    (now - start_clock w == inject_Z (10 * Z.of_nat (iterations_until (duration args))))%Q.
Proof.
  intros Hpos Hclk.
  destruct (iterations_until_bounds _ Hpos) as (Hk & Hlo & Hhi).
  destruct (iterations_until (duration args)) as [|k]; [lia|].
  destruct (iterations_continue args w k st 0) as (st1 & Hclk1 & Hlen1 & Hrun1);
    [exact Hclk | lia |].
  assert (He : (clock st1 + 10 - start_clock w == inject_Z (10 * Z.of_nat (S k)))%Q).
  { replace (10 * Z.of_nat (S k)) with ((0 + 10 * Z.of_nat k) + 10) by lia.
    rewrite inject_Z_plus, <- Hclk1. change (inject_Z 10) with 10%Q. lra. }
  destruct (iteration_stops args w st1) as (st' & now & Hnow & Hin & Hrun).
  { rewrite (timeout_reached_elapsed _ _ _ _ He).
    apply andb_true_iff. split; [apply Z.ltb_lt | apply Z.leb_le]; lia. }
  exists st', now. conj.
  - rewrite punctual_run_last, Hrun1, <- Hlen1.
    rewrite <- (app_nil_r (punctual_run _ 1)). apply Hrun.
  - now rewrite Hnow.
Qed.

(** When no statement ends early, every timeout test comes at least one
    sleep after the loop was entered, and records what the test found. *)
Lemma honest_step (args : Args) (w : World) (p p' : pc) (t : tick) (st st' : state) :
  (0 <= lag t)%Q ->
  (start_clock w + slept p <= clock st)%Q ->
  step args w p t st = (st', Next p') ->
  (start_clock w + slept p' <= clock st')%Q /\
  forall now b, In (Checked now b) (trace st') ->
                In (Checked now b) (trace st)
                \/ ((start_clock w + 10 <= now)%Q
                    /\ b = timeout_reached (duration args) (start_clock w) now).
Proof.
  intros Hlag Hinv. unfold step. destruct (sig t); [discriminate|].
  destruct p as [ |i|i| ]; cbn [exec slept] in *; intros H.
  - injection H as <- <-. split.
    + simpl. assert (slept (for_head 0 st) <= 10)%Q
        by (unfold for_head; destruct (_ <? _)%nat; simpl; lra). lra.
    + intros now b Hin. simpl in Hin. apply in_app_or in Hin.
      destruct Hin as [Hin | [Hin | []]]; [now left | discriminate].
  - destruct (fault t); [discriminate|]. injection H as <- <-. split.
    + simpl. lra.
    + intros now b Hin. now left.
  - destruct (fault t); [discriminate|]. injection H as <- <-. split.
    + simpl. assert (slept (for_head (S i) st) <= 10)%Q
        by (unfold for_head; destruct (_ <? _)%nat; simpl; lra). lra.
    + intros now b Hin. simpl in Hin. apply in_app_or in Hin.
      destruct Hin as [Hin | [Hin | []]]; [now left | discriminate].
  - destruct (timeout_reached _ _ _) eqn:Hto; [discriminate|]. injection H as <- <-. split.
    + simpl. lra.
    + intros now b Hin. simpl in Hin. apply in_app_or in Hin.
      destruct Hin as [Hin | [Hin | []]]; [now left|].
      injection Hin as <- <-. right. split; [exact Hinv | now rewrite Hto].
Qed.

Lemma honest_loop (args : Args) (w : World) (ticks : list tick) :
  Forall (fun t => 0 <= lag t)%Q ticks ->
  forall p st st' fin,
    (start_clock w + slept p <= clock st)%Q ->
    hold_loop args w p ticks st = (st', fin) ->
    forall now b, In (Checked now b) (trace st') ->
                  In (Checked now b) (trace st)
                  \/ ((start_clock w + 10 <= now)%Q
                      /\ b = timeout_reached (duration args) (start_clock w) now).
Proof.
  induction 1 as [|t rest Hlag Hrest IH]; intros p st st' fin Hinv H now b Hin; simpl in H.
  - injection H as <- <-. now left.
  - destruct (step args w p t st) as [st1 [p1| |e]] eqn:Hstep.
    + destruct (honest_step args w p p1 t st st1 Hlag Hinv Hstep) as (Hinv1 & Hnew).
      destruct (IH p1 st1 st' fin Hinv1 H now b Hin) as [Hold | Hfresh]; [|now right].
      now apply Hnew.
    + injection H as <- <-. apply step_break in Hstep.
      destruct Hstep as (_ & -> & Hto & ->). simpl in Hin, Hinv.
      rewrite <- app_assoc in Hin. apply in_app_or in Hin.
      destruct Hin as [Hin | [Hin | [Hin | []]]]; [now left | | discriminate].
      injection Hin as <- <-. right. split; [exact Hinv | now rewrite Hto].
    + injection H as <- <-. apply step_throw in Hstep.
      destruct Hstep as [(s & _ & _ & _ & Htr) | (_ & _ & _ & -> & _)]; [|now left].
      rewrite Htr in Hin. apply in_app_or in Hin.
      destruct Hin as [Hin | Hin]; [now left|].
      simpl in Hin. repeat (destruct Hin as [Hin | Hin]; try discriminate). contradiction.
Qed.

Section Timing.

Variable str_strip : string -> string.
Variable str_to_int : string -> option Z.

Local Abbreviation run_acquire := (acquire str_strip str_to_int).
Local Abbreviation run_main := (main str_strip str_to_int).

(** The timeout tests a run has recorded were all made in the loop. *)
Lemma checks_of_run (args : Args) (w : World) (ticks : list tick) (now : Q) (b : bool) :
  In (Checked now b) (trace (final (run_main args w ticks))) ->
  exists st0 ids st' fin,
    run_acquire args w = (st0, Return ids) /\
    hold_loop args w AtSleep ticks (announce args w ids st0) = (st', fin) /\
    In (Checked now b) (trace st') /\
    ~ In (Checked now b) (trace (announce args w ids st0)).
Proof.
  intros Hin.
  destruct (run_acquire args w) as [st0 [ids|e]] eqn:Hacq.
  2:{ exfalso. destruct (failed_run str_strip str_to_int args w ticks st0 e Hacq)
        as (_ & Hhold & _).
      unfold hold_started in Hhold.
      assert (existsb is_hold_event (trace (final (run_main args w ticks))) = true)
        by (apply existsb_exists; exists (Checked now b); conj).
      congruence. }
  rewrite (main_held str_strip str_to_int args w ticks st0 ids Hacq) in Hin.
  destruct (hold_loop args w AtSleep ticks (announce args w ids st0)) as [st' fin] eqn:Hloop.
  exists st0, ids, st', fin. conj.
  - destruct (cleanup_spec st') as [_ Hclean].
    destruct fin as [ |[]|p]; cbn [final die emit trace] in Hin; rewrite ?Hclean in Hin;
      try exact Hin;
      (apply in_app_or in Hin; destruct Hin as [Hin | Hin]; [exact Hin|]);
      simpl in Hin; repeat (destruct Hin as [Hin | Hin]; try discriminate);
      contradiction.
  - intros Hann.
    destruct (acquire_spec str_strip str_to_int _ _ _ _ Hacq) as (Hhold & _).
    destruct (announce_spec args w ids st0) as (_ & _ & says & Htr).
    rewrite Htr in Hann. apply in_app_or in Hann. destruct Hann as [Hann | Hann].
    + unfold hold_started in Hhold.
      assert (existsb is_hold_event (trace st0) = true)
        by (apply existsb_exists; exists (Checked now b); conj).
      congruence.
    + simpl in Hann. repeat (destruct Hann as [Hann | Hann]; try discriminate).
      contradiction.
Qed.

(** [C5, as the code has it] The loop sleeps a fixed 10 seconds per
    iteration and tests the timeout once per iteration, after the sleep
    and the keep-alive pass.  So, no statement ending early, a timeout
    stop comes when at least the duration and at least 10 seconds have
    gone by since the loop was entered.  And with exact timing a run with
    duration [d > 0] does stop, after [ceil(d/10)] sleeps: at
    [10 * ceil(d/10)] seconds, somewhere in [d, d + 10) -- for [d = 5], at
    10 seconds. *)
Theorem timeout_after_whole_sleeps (args : Args) (w : World) (ticks : list tick) (now : Q) :
  (Forall (fun t => 0 <= lag t)%Q ticks ->
   In (Checked now true) (trace (final (run_main args w ticks))) ->
   (inject_Z (duration args) <= now - start_clock w)%Q /\
   (10 <= now - start_clock w)%Q) /\
  (0 < duration args ->
   outcome (run_main args w []) = Holding AtSleep ->
   outcome (run_main args w
              (punctual_run (List.length (tensors (final (run_main args w []))))
                 (iterations_until (duration args)))) = Exited 0 /\
   (exists stop,
      In (Checked stop true)
        (trace (final (run_main args w
                         (punctual_run (List.length (tensors (final (run_main args w []))))
                            (iterations_until (duration args)))))) /\
      (stop - start_clock w == inject_Z (10 * Z.of_nat (iterations_until (duration args))))%Q) /\
   duration args <= 10 * Z.of_nat (iterations_until (duration args)) < duration args + 10).
Proof.
  split.
  - intros Hhonest Hin.
    destruct (checks_of_run args w ticks now true Hin)
      as (st0 & ids & st' & fin & Hacq & Hloop & Hin' & Hfresh).
    destruct (announce_spec args w ids st0) as (_ & Hclk & _).
    assert (Hentry : (start_clock w + slept AtSleep <= clock (announce args w ids st0))%Q)
      by (rewrite Hclk; simpl; lra).
    destruct (honest_loop args w ticks Hhonest AtSleep (announce args w ids st0) st' fin
                Hentry Hloop now true Hin') as [Hold | (Hten & Hto)].
    + contradiction.
    + symmetry in Hto. apply timeout_reached_iff in Hto. split; [apply Hto | lra].
  - intros Hpos Hheld.
    destruct (run_acquire args w) as [st0 [ids|e]] eqn:Hacq.
    2:{ destruct (failed_run str_strip str_to_int args w [] st0 e Hacq) as (Hout & _).
        congruence. }
    destruct (announce_spec args w ids st0) as (_ & Hclk & _).
    assert (Hentry : final (run_main args w []) = announce args w ids st0)
      by (rewrite (main_held str_strip str_to_int args w [] st0 ids Hacq); reflexivity).
    rewrite Hentry.
    destruct (punctual_timeout args w (announce args w ids st0) Hpos)
      as (st' & stop & Hrun & Hin & Hstop).
    { rewrite Hclk. lra. }
    rewrite (main_held str_strip str_to_int args w _ st0 ids Hacq), Hrun.
    cbn [final outcome]. destruct (cleanup_spec st') as [_ ->].
    destruct (iterations_until_bounds _ Hpos) as (_ & Hlo & Hhi).
    conj; try lia.
    exists stop. conj. apply in_or_app. now left.
Qed.

End Timing.

(** * Concrete runs *)

(** [C5] One device requested, 5 seconds, exact timing: the only timeout
    test comes after the first sleep, 10 seconds in, and stops the run there. *)
Lemma timeout_accuracy_counterexample :
  outcome (Sample.run_main (Sample.request "0" 5) Sample.two_gpus (punctual_run 1 1))
  = Exited 0 /\
  In (Checked 10 true)
    (trace (final (Sample.run_main (Sample.request "0" 5) Sample.two_gpus
                     (punctual_run 1 1)))) /\
  ~ stops_within 5 6 Sample.two_gpus
      (Sample.run_main (Sample.request "0" 5) Sample.two_gpus (punctual_run 1 1)).
Proof.
  split; [reflexivity|]. split.
  - vm_compute. repeat (first [left; reflexivity | right]).
  - intros (now & Hin & Hlo & Hhi).
    vm_compute in Hin.
    repeat (destruct Hin as [Hin | Hin]; try discriminate); try contradiction.
    injection Hin as <-. vm_compute in Hhi. discriminate.
Qed.

(** [C6] Two devices held; a signal delivered when the first tensor has
    had its keep-alive and the second has not: the handler is entered
    right there, in the middle of the pass, not at the top of an iteration. *)
Lemma signal_polling_counterexample :
  In (Handler SIGINT (AtAdd 1))
    (trace (final (Sample.run_main (Sample.request "0, 1" 0) Sample.two_gpus
                     [punctual; punctual; punctual; Sample.interrupt]))) /\
  ~ handled_at_loop_top
      (Sample.run_main (Sample.request "0, 1" 0) Sample.two_gpus
         [punctual; punctual; punctual; Sample.interrupt]).
Proof.
  assert (Hin : In (Handler SIGINT (AtAdd 1))
                  (trace (final (Sample.run_main (Sample.request "0, 1" 0) Sample.two_gpus
                                   [punctual; punctual; punctual; Sample.interrupt]))))
    by (vm_compute; repeat (first [left; reflexivity | right])).
  split; [exact Hin|].
  intros Htop. specialize (Htop SIGINT (AtAdd 1) Hin). discriminate.
Qed.


(** [C4] A duration of 5 seconds and a first sleep that returns after
    1010 seconds: the duration has long elapsed, and the loop is still
    running, in the middle of the keep-alive of its tensor.  The timeout
    is looked at only once the pass is over. *)
Lemma timeout_overdue_counterexample :
  outcome (Sample.run_main (Sample.request "0" 5) Sample.two_gpus [Sample.late; punctual])
  = Holding (AtSub 0) /\
  (clock (final (Sample.run_main (Sample.request "0" 5) Sample.two_gpus [Sample.late; punctual]))
   - start_clock Sample.two_gpus == 1010)%Q /\
  ~ stops_when_due (Sample.request "0" 5) Sample.two_gpus
      (Sample.run_main (Sample.request "0" 5) Sample.two_gpus [Sample.late; punctual]).
Proof.
  split; [vm_compute; reflexivity|]. split; [vm_compute; reflexivity|].
  intros Hdue. apply (Hdue (AtSub 0)); [vm_compute; reflexivity|].
  split; [simpl; lia|]. vm_compute. discriminate.
Qed.

(** [C10] With [--duration -3] a keep-alive operation that raises ends
    the loop, and the process, with no signal delivered. *)
Lemma nonpositive_duration_counterexample :
  outcome (Sample.run_main (Sample.request "0" (-3)) Sample.two_gpus [punctual; Sample.broken])
  = Exited 1 /\
  hold_started (trace (final (Sample.run_main (Sample.request "0" (-3)) Sample.two_gpus [punctual; Sample.broken])))
  = true /\
  ~ stops_only_on_signal
      (Sample.run_main (Sample.request "0" (-3)) Sample.two_gpus [punctual; Sample.broken]).
Proof.
  split; [vm_compute; reflexivity|]. split; [vm_compute; reflexivity|].
  intros Honly. destruct (Honly eq_refl 1 eq_refl) as (s & p & Hin).
  vm_compute in Hin.
  repeat (destruct Hin as [Hin | Hin]; try discriminate); try contradiction.
Qed.

(** [C2] at the request "0, 2" on two devices. *)
Lemma validation_is_upfront_witness :
  exists pre g post,
    [0; 2] = pre ++ g :: post /\
    Forall (fun x => 0 <= x < 2) pre /\
    ~ (0 <= g < 2) /\
    Sample.run_main (Sample.request "0, 2" 5) Sample.two_gpus []
    = {| final := emit (Printed (MsgGpuNotFound g 2)) initial; outcome := Exited 1 |} /\
    acquire_calls (trace (final (Sample.run_main (Sample.request "0, 2" 5)
                                   Sample.two_gpus []))) = 0%nat /\
    clear_calls (trace (final (Sample.run_main (Sample.request "0, 2" 5)
                                 Sample.two_gpus []))) = 0%nat /\
    tensors (final (Sample.run_main (Sample.request "0, 2" 5) Sample.two_gpus [])) = [].
Proof.
  apply (validation_is_upfront Sample.strip Sample.to_int (Sample.request "0, 2" 5)
           Sample.two_gpus [] [0; 2]).
  - reflexivity.
  - reflexivity.
  - apply Exists_cons_tl, Exists_cons_hd. simpl. lia.
Defined.

(** [C1] at the request "0, 1" when the second allocation runs out of memory. *)
Lemma rollback_releases_all_witness :
  List.length (acquired (trace (final (Sample.run_main (Sample.request "0, 1" 5)
                                         Sample.second_fails [])))) = 1%nat /\
  released (trace (final (Sample.run_main (Sample.request "0, 1" 5) Sample.second_fails [])))
  = acquired (trace (final (Sample.run_main (Sample.request "0, 1" 5)
                              Sample.second_fails []))) /\
  List.length (released (trace (final (Sample.run_main (Sample.request "0, 1" 5)
                                         Sample.second_fails []))))
  = List.length (acquired (trace (final (Sample.run_main (Sample.request "0, 1" 5)
                                           Sample.second_fails [])))) /\
  tensors (final (Sample.run_main (Sample.request "0, 1" 5) Sample.second_fails [])) = [] /\
  hold_started (trace (final (Sample.run_main (Sample.request "0, 1" 5)
                                Sample.second_fails []))) = false /\
  outcome (Sample.run_main (Sample.request "0, 1" 5) Sample.second_fails []) = Exited 1.
Proof.
  apply (rollback_releases_all Sample.strip Sample.to_int (Sample.request "0, 1" 5)
           Sample.second_fails [] [0; 1] 1%nat).
  - reflexivity.
  - reflexivity.
  - reflexivity.
  - simpl. lia.
  - intros [|i] Hi; [vm_compute; reflexivity | lia].
  - vm_compute. reflexivity.
Defined.

(** [C6] at a SIGINT delivered between the keep-alives of two tensors. *)
Lemma signal_handled_where_it_arrives_witness :
  outcome (Sample.run_main (Sample.request "0, 1" 0) Sample.two_gpus
             ([punctual; punctual; punctual] ++ [Sample.interrupt])) = Exited 0 /\
  tensors (final (Sample.run_main (Sample.request "0, 1" 0) Sample.two_gpus
                    ([punctual; punctual; punctual] ++ [Sample.interrupt]))) = [] /\
  trace (final (Sample.run_main (Sample.request "0, 1" 0) Sample.two_gpus
                  ([punctual; punctual; punctual] ++ [Sample.interrupt])))
  = trace (final (Sample.run_main (Sample.request "0, 1" 0) Sample.two_gpus
                    [punctual; punctual; punctual]))
    ++ [Handler SIGINT (AtAdd 1); Printed MsgReleasing;
        Cleared (tensors (final (Sample.run_main (Sample.request "0, 1" 0) Sample.two_gpus
                                   [punctual; punctual; punctual])));
        EmptyCache; Printed MsgDone].
Proof.
  apply (signal_handled_where_it_arrives Sample.strip Sample.to_int (Sample.request "0, 1" 0)
           Sample.two_gpus [punctual; punctual; punctual] (AtAdd 1) Sample.interrupt SIGINT).
  - vm_compute. reflexivity.
  - reflexivity.
Defined.


(** [C10] at [--duration -3], the run ended by a SIGINT. *)
Lemma nonpositive_duration_is_zero_witness :
  Sample.run_main (Sample.request "0" (-3)) Sample.two_gpus [punctual; Sample.interrupt]
  = Sample.run_main (with_duration 0 (Sample.request "0" (-3))) Sample.two_gpus
      [punctual; Sample.interrupt] /\
  ~ timed_out (trace (final (Sample.run_main (Sample.request "0" (-3)) Sample.two_gpus [punctual; Sample.interrupt]))) /\
  ((0 = 0 /\ signalled (trace (final (Sample.run_main (Sample.request "0" (-3)) Sample.two_gpus [punctual; Sample.interrupt]))))
   \/ (0 = 1 /\
       (exists oom, In (Traceback (RuntimeError oom)) (trace (final (Sample.run_main (Sample.request "0" (-3)) Sample.two_gpus [punctual; Sample.interrupt])))) /\
       ~ signalled (trace (final (Sample.run_main (Sample.request "0" (-3)) Sample.two_gpus [punctual; Sample.interrupt]))))).
Proof.
  destruct (nonpositive_duration_is_zero Sample.strip Sample.to_int
              (Sample.request "0" (-3)) Sample.two_gpus [punctual; Sample.interrupt])
    as (Hsame & Hnever & Hleft).
  - simpl. lia.
  - split; [exact Hsame|]. split; [exact Hnever|].
    apply (Hleft 0); vm_compute; reflexivity.
Defined.

(** [C9] at a run standing between the two halves of the first keep-alive. *)
Lemma keep_alive_preserves_contents_witness :
  Forall (fun t => keep_alive t = t)
    (acquired (trace (final (Sample.run_main (Sample.request "0, 1" 0) Sample.two_gpus
                               [punctual; punctual])))) /\
  tensors (final (Sample.run_main (Sample.request "0, 1" 0) Sample.two_gpus
                    [punctual; punctual]))
  = contents_at (AtSub 0)
      (acquired (trace (final (Sample.run_main (Sample.request "0, 1" 0) Sample.two_gpus
                                 [punctual; punctual])))).
Proof.
  apply (keep_alive_preserves_contents Sample.strip Sample.to_int (Sample.request "0, 1" 0)
           Sample.two_gpus [punctual; punctual] (AtSub 0)).
  vm_compute. reflexivity.
Defined.

(** [C4] at one tensor held for a duration of 5: the first iteration,
    exactly timed, ends in the [break]; with duration 0 the loop goes on. *)
Lemma timeout_at_the_test_witness :
  snd (hold_loop (Sample.request "0" 5) Sample.two_gpus AtSleep (punctual_run 1 1)
         {| tensors := [fresh_tensor 1 0]; trace := []; clock := 0 |}) = LoopBreak /\
  exists p',
    snd (hold_loop (with_duration 0 (Sample.request "0" 5)) Sample.two_gpus AtSleep
           (map calm (punctual_run 1 1))
           {| tensors := [fresh_tensor 1 0]; trace := []; clock := 0 |}) = LoopPending p'.
Proof.
  destruct (timeout_at_the_test (Sample.request "0" 5) Sample.two_gpus AtSleep
              {| tensors := [fresh_tensor 1 0]; trace := []; clock := 0 |}
              (punctual_run 1 1)) as ([_ Hbreak] & _ & Hruns).
  split; [|exact Hruns].
  apply Hbreak.
  exists [punctual; punctual; punctual], punctual, [].
  eexists. split; [reflexivity|]. split; [vm_compute; reflexivity|].
  split; [reflexivity|]. split; [simpl; lia|].
  vm_compute. discriminate.
Defined.

(** [C5] at a duration of 25 seconds on one device: three sleeps, 30 seconds. *)
Lemma timeout_after_whole_sleeps_witness :
  outcome (Sample.run_main (Sample.request "0" 25) Sample.two_gpus (punctual_run 1 3))
  = Exited 0 /\
  exists stop,
    In (Checked stop true)
      (trace (final (Sample.run_main (Sample.request "0" 25) Sample.two_gpus
                       (punctual_run 1 3)))) /\
    (stop - 0 == 30)%Q.
Proof.
  destruct (timeout_after_whole_sleeps Sample.strip Sample.to_int (Sample.request "0" 25)
              Sample.two_gpus [] 0) as [_ Hexact].
  destruct Hexact as (Hout & Hstop & _).
  - simpl. lia.
  - reflexivity.
  - split; [exact Hout | exact Hstop].
Defined.

(** ** The model at work *)

Example split_keeps_blanks : split ","%char "0, 1,2" = ["0"; " 1"; "2"]%string.
Proof. reflexivity. Qed.

Example split_trailing_comma : split ","%char "0," = ["0"; ""]%string.
Proof. reflexivity. Qed.

Example trailing_comma_rejected :
  parse_gpu_ids Sample.strip Sample.to_int "0,1," = None.
Proof. reflexivity. Qed.

(** [--memory 40]: ten gibi-elements of four bytes. *)
Example forty_gigabytes : num_elements (f64_of_Z 40) = Return 10737418240.
Proof. vm_compute. reflexivity. Qed.

Example memory_nan_raises : num_elements S754_nan = Raise ValueError.
Proof. reflexivity. Qed.

(** After the addition an element holding 1.0 holds 1.0001000165939331. *)
Example one_plus_constant :
  f32_add (f32_of_Z 1) (f32_of_f64 lit_0_0001) = S754_finite false 8389447 (-23).
Proof. vm_compute. reflexivity. Qed.

(** The keep-alive is exact on the contents the script stores, not on
    every [float32]: 2.0 would come back as 1.9999998807907104. *)
Example keep_alive_not_exact_everywhere :
  keep_alive {| device := 0; data := [f32_of_Z 2] |}
  = {| device := 0; data := [S754_finite false 16777215 (-23)] |}.
Proof. vm_compute. reflexivity. Qed.

(** * Further properties of the script *)

(** ** Parsing the device list *)

Lemma split_not_nil (sep : ascii) (s : string) : split sep s <> [].
Proof.
  destruct s as [|c rest]; simpl; [discriminate|].
  destruct (Ascii.eqb c sep); [discriminate|].
  destruct (split sep rest); discriminate.
Qed.

Lemma split_cons (sep c : ascii) (rest : string) :
  Ascii.eqb c sep = false ->
  exists piece pieces,
    split sep rest = piece :: pieces /\
    split sep (String c rest) = String c piece :: pieces.
Proof.
  intros Hc. simpl. rewrite Hc.
  destruct (split sep rest) as [|piece pieces] eqn:E.
  - exfalso. now apply (split_not_nil sep rest).
  - now exists piece, pieces.
Qed.

Lemma split_length (sep : ascii) (s : string) :
  List.length (split sep s) = S (occurrences sep s).
Proof.
  induction s as [|c rest IH]; [reflexivity|].
  cbn [occurrences]. destruct (Ascii.eqb c sep) eqn:Hc.
  - cbn [split]. rewrite Hc. simpl. now rewrite IH.
  - destruct (split_cons sep c rest Hc) as (piece & pieces & E & ->).
    rewrite E in IH. exact IH.
Qed.

(** [X1] [s.split(sep)] and [sep.join] are inverse to each other: joining
    the pieces with the separator gives the string back, no piece holds
    the separator, and there is one piece more than separators. *)
Theorem split_then_join (sep : ascii) (s : string) :
  String.concat (String sep EmptyString) (split sep s) = s /\
  Forall (fun piece => occurrences sep piece = 0%nat) (split sep s) /\
  List.length (split sep s) = S (occurrences sep s).
Proof.
  induction s as [|c rest (Hjoin & Hfree & Hlen)].
  - simpl. repeat split. repeat constructor.
  - destruct (Ascii.eqb c sep) eqn:Hc.
    + apply Ascii.eqb_eq in Hc. subst c.
      cbn [split occurrences]. rewrite Ascii.eqb_refl. repeat split.
      * cbn [String.concat].
        destruct (split sep rest) as [|piece pieces] eqn:E;
          [exfalso; now apply (split_not_nil sep rest)|].
        rewrite Hjoin. reflexivity.
      * constructor; [reflexivity | exact Hfree].
      * simpl. now rewrite Hlen.
    + destruct (split_cons sep c rest Hc) as (piece & pieces & E & ->).
      rewrite E in *. cbn [occurrences]. rewrite Hc. repeat split.
      * rewrite <- Hjoin. destruct pieces; reflexivity.
      * inversion Hfree as [|? ? Hpiece Hothers]; subst.
        constructor; [|exact Hothers]. cbn [occurrences]. now rewrite Hc.
      * simpl in *. exact Hlen.
Qed.

Lemma split_free (sep : ascii) (piece : string) :
  occurrences sep piece = 0%nat -> split sep piece = [piece].
Proof.
  induction piece as [|c rest IH]; [reflexivity|].
  cbn [occurrences]. destruct (Ascii.eqb c sep) eqn:Hc; [discriminate|].
  intros H. simpl. rewrite Hc, (IH H). reflexivity.
Qed.

Lemma split_append (sep : ascii) (piece tail : string) :
  occurrences sep piece = 0%nat ->
  split sep (piece ++ String sep tail) = piece :: split sep tail.
Proof.
  induction piece as [|c rest IH]; intros H.
  - simpl. now rewrite Ascii.eqb_refl.
  - cbn [occurrences] in H. destruct (Ascii.eqb c sep) eqn:Hc; [discriminate|].
    change ((String c rest ++ String sep tail)%string)
      with (String c (rest ++ String sep tail)).
    cbn [split]. rewrite Hc, (IH H). reflexivity.
Qed.

(** [X2] Conversely, splitting what [sep.join] made of pieces that hold
    no separator gives the pieces back. *)
Theorem join_then_split (sep : ascii) (pieces : list string) :
  pieces <> [] ->
  Forall (fun piece => occurrences sep piece = 0%nat) pieces ->
  split sep (String.concat (String sep EmptyString) pieces) = pieces.
Proof.
  intros Hne Hfree. induction Hfree as [|piece rest Hpiece Hrest IH]; [congruence|].
  destruct rest as [|next others].
  - simpl. now apply split_free.
  - change (String.concat (String sep EmptyString) (piece :: next :: others))
      with (piece ++ String sep (String.concat (String sep EmptyString) (next :: others)))%string.
    rewrite (split_append sep piece _ Hpiece), IH; [reflexivity | discriminate].
Qed.

Section Parsing.

Variable str_strip : string -> string.
Variable str_to_int : string -> option Z.

Local Abbreviation parse := (parse_gpu_ids str_strip str_to_int).

Lemma ints_of_some (pieces : list string) (ids : list Z) :
  ints_of str_strip str_to_int pieces = Some ids
  <-> Forall2 (fun x z => str_to_int (str_strip x) = Some z) pieces ids.
Proof.
  revert ids. induction pieces as [|x rest IH]; intros ids; simpl.
  - split; [intros H; inversion H; constructor | intros H; inversion H; reflexivity].
  - destruct (str_to_int (str_strip x)) as [z|] eqn:Hx.
    + destruct (ints_of str_strip str_to_int rest) as [zs|] eqn:Hrest.
      * split.
        -- intros H; inversion H; subst. constructor; [exact Hx | now apply IH].
        -- intros H; inversion H as [|? ? ? ? Hz Hzs]; subst.
           apply IH in Hzs. congruence.
      * split; [discriminate|].
        intros H; inversion H as [|? ? ? ? Hz Hzs]; subst.
        apply IH in Hzs. discriminate.
    + split; [discriminate|].
      intros H; inversion H; subst. congruence.
Qed.

Lemma ints_of_none (pieces : list string) :
  ints_of str_strip str_to_int pieces = None
  <-> Exists (fun x => str_to_int (str_strip x) = None) pieces.
Proof.
  induction pieces as [|x rest IH]; simpl.
  - split; [discriminate | intros H; inversion H].
  - destruct (str_to_int (str_strip x)) as [z|] eqn:Hx.
    + destruct (ints_of str_strip str_to_int rest) as [zs|] eqn:Hrest.
      * split; [discriminate|].
        intros H; inversion H as [? ? Hbad | ? ? Hbad]; subst; [congruence|].
        apply IH in Hbad. discriminate.
      * split; [intros _ | reflexivity]. apply Exists_cons_tl. now apply IH.
    + split; [intros _ | reflexivity]. now apply Exists_cons_hd.
Qed.

(** [X3] The device list is converted all or nothing: it parses to
    [ids] exactly when every comma-separated piece, stripped, is an
    integer, [ids] being those integers in order; and one piece that is
    not an integer, wherever it stands, rejects the whole list. *)
Theorem parse_all_or_nothing (s : string) (ids : list Z) :
  (parse s = Some ids
   <-> Forall2 (fun x z => str_to_int (str_strip x) = Some z) (split ","%char s) ids) /\
  (parse s = None
   <-> Exists (fun x => str_to_int (str_strip x) = None) (split ","%char s)).
Proof.
  unfold parse_gpu_ids. split; [apply ints_of_some | apply ints_of_none].
Qed.

Lemma parsed_nonempty (s : string) (ids : list Z) : parse s = Some ids -> ids <> [].
Proof.
  intros H. apply ints_of_some in H. intros ->. inversion H as [E|].
  symmetry in E. now apply split_not_nil in E.
Qed.

(** [X4] A list that parses has one identifier more than the string has
    commas; in particular it is never empty. *)
Theorem parsed_count (s : string) (ids : list Z) :
  parse s = Some ids ->
  List.length ids = S (occurrences ","%char s) /\ ids <> [].
Proof.
  intros H. apply ints_of_some in H.
  assert (Hn : List.length ids = S (occurrences ","%char s))
    by (rewrite <- (split_length ","%char s); symmetry; eapply Forall2_length; exact H).
  split; [exact Hn|]. intros ->. discriminate.
Qed.

End Parsing.

(** ** Allocation, call by call *)

Lemma attempted_app (a b : list event) : attempted (a ++ b) = attempted a ++ attempted b.
Proof. apply flat_map_app. Qed.

Lemma error_reports_app (a b : list event) :
  error_reports (a ++ b) = (error_reports a + error_reports b)%nat.
Proof. unfold error_reports. now rewrite filter_app, length_app. Qed.

Lemma empty_cache_calls_app (a b : list event) :
  empty_cache_calls (a ++ b) = (empty_cache_calls a + empty_cache_calls b)%nat.
Proof. unfold empty_cache_calls. now rewrite filter_app, length_app. Qed.

Lemma sleeps_app (a b : list event) : sleeps (a ++ b) = (sleeps a + sleeps b)%nat.
Proof. unfold sleeps. now rewrite filter_app, length_app. Qed.

Lemma acquire_calls_attempted (tr : list event) :
  acquire_calls tr = List.length (attempted tr).
Proof.
  unfold acquire_calls, attempted.
  induction tr as [|e rest IH]; [reflexivity|].
  destruct e; simpl; rewrite ?IH; reflexivity.
Qed.

(** The three ways [allocate_memory] ends, with what decides them. *)
Lemma allocate_memory_detail (w : World) (k : nat) (g : Z) (m : spec_float) (st : state) :
  (exists n, num_elements m = Return n /\ 0 <= n /\ backend w k g n = None /\
             allocate_memory w k g m st
             = (emit (Acquired (fresh_tensor n g)) st, Return (Some (fresh_tensor n g))))
  \/ (exists n says,
        num_elements m = Return n /\
        (n < 0 /\ says = MsgAllocError g
         \/ 0 <= n /\ exists oom, backend w k g n = Some oom /\
                                  says = if oom then MsgNotEnoughMemory g m
                                         else MsgAllocError g) /\
        allocate_memory w k g m st
        = (emit (Printed says) (emit (AcquireFailed g) st), Return None))
  \/ (exists e, num_elements m = Raise e /\
                allocate_memory w k g m st = (emit (AcquireFailed g) st, Raise e)).
Proof.
  unfold allocate_memory, fresh_tensor.
  destruct (num_elements m) as [n|e]; [|right; right; now exists e].
  destruct (Z.ltb_spec n 0) as [Hneg | Hpos].
  - right; left. exists n, (MsgAllocError g). conj. now left.
  - destruct (backend w k g n) as [oom|] eqn:Hb.
    + right; left. eexists n, _. conj. right. split; [exact Hpos|]. now exists oom.
    + left. exists n. conj.
Qed.

(** The allocation loop, call by call: which devices it asked for, what
    it obtained, how many errors it printed. *)
Lemma allocate_all_attempts (w : World) (m : spec_float) (ids : list Z) :
  forall (k : nat) (st st' : state) (res : py_result unit),
    allocate_all w m k ids st = (st', res) ->
    exists new rest,
      ids = new ++ rest /\
      attempted (trace st') = attempted (trace st) ++ new /\
      error_reports (trace st')
      = (error_reports (trace st) + match res with Raise (SystemExit _) => 1 | _ => 0 end)%nat /\
      match res with
      | Return _ =>
          rest = [] /\
          (ids <> [] -> exists n, num_elements m = Return n /\ 0 <= n) /\
          forall n, num_elements m = Return n ->
                    acquired (trace st') = acquired (trace st) ++ map (fresh_tensor n) ids
      | Raise _ =>
          (List.length (acquired (trace st')) + 1
           = List.length (acquired (trace st)) + List.length new)%nat
      end.
Proof.
  induction ids as [|g others IH]; intros k st st' res H; simpl in H.
  - inversion H; subst. exists [], []. rewrite !app_nil_r. conj; [lia | congruence|].
    intros n _. simpl. now rewrite app_nil_r.
  - destruct (allocate_memory_detail w k g m (emit (Printed (MsgAllocatingOn g)) st))
      as [(n & Hn & Hpos & _ & E) | [(n & says & Hn & Hwhy & E) | (e & Hn & E)]];
      rewrite E in H.
    + apply IH in H. destruct H as (new & rest & Hids & Hatt & Herr & Hres).
      exists (g :: new), rest.
      cbn [emit append trace tensors] in Hatt, Herr, Hres.
      rewrite !attempted_app in Hatt. rewrite !error_reports_app in Herr.
      rewrite !acquired_app in Hres.
      cbn in Hatt, Herr. rewrite !app_nil_r in Hatt. rewrite !Nat.add_0_r in Herr.
      rewrite Hatt, Herr, <- app_assoc. conj.
      * simpl. now rewrite Hids.
      * destruct res as [u|e].
        -- destruct Hres as (-> & _ & Hcontents). conj.
           ++ intros _. now exists n.
           ++ intros n' Hn'. rewrite (Hcontents n' Hn').
              assert (n' = n) by congruence. subst n'.
              change (acquired [Printed (MsgAllocatingOn g)]) with (@nil tensor).
              change (acquired [Printed MsgOK]) with (@nil tensor).
              change (acquired [Acquired (fresh_tensor n g)]) with [fresh_tensor n g].
              rewrite !app_nil_r, <- app_assoc. reflexivity.
        -- cbn in Hres. rewrite !app_nil_r, length_app in Hres. simpl in *. lia.
    + inversion H; subst. clear H. exists [g], others.
      cbn [emit clear trace tensors].
      rewrite !attempted_app, !error_reports_app, !acquired_app. cbn.
      rewrite !app_nil_r, !Nat.add_0_r. conj; try lia.
      f_equal.
      destruct Hwhy as [(_ & ->) | (_ & [|] & _ & ->)]; reflexivity.
    + inversion H; subst. clear H. exists [g], others.
      cbn [emit trace tensors].
      rewrite !attempted_app, !error_reports_app, !acquired_app. cbn.
      rewrite !app_nil_r, !Nat.add_0_r. conj; try lia.
      destruct (num_elements_raises _ _ Hn) as [-> | ->]; lia.
Qed.

Lemma idle_silent (evs : list event) :
  forallb is_idle_event evs = true ->
  attempted evs = [] /\ error_reports evs = 0%nat /\ empty_cache_calls evs = 0%nat.
Proof.
  unfold error_reports, empty_cache_calls.
  induction evs as [|e rest IH]; cbn [forallb]; [intros _; conj|].
  rewrite andb_true_iff. intros [He Hrest]. destruct (IH Hrest) as (Ha & Hr & Hc).
  destruct e; simpl in *; try discriminate; conj.
Qed.

Lemma not_hold_no_sleep (evs : list event) : hold_started evs = false -> sleeps evs = 0%nat.
Proof.
  unfold hold_started, sleeps.
  induction evs as [|e rest IH]; cbn [existsb]; [reflexivity|].
  rewrite orb_false_iff. intros [He Hrest].
  destruct e; simpl in *; try discriminate; auto.
Qed.

Section Conduct.

Variable str_strip : string -> string.
Variable str_to_int : string -> option Z.

Local Abbreviation parse := (parse_gpu_ids str_strip str_to_int).
Local Abbreviation run_acquire := (acquire str_strip str_to_int).
Local Abbreviation run_main := (main str_strip str_to_int).
Local Abbreviation run_script := (occupy_gpu str_strip str_to_int).

(** What the run up to the loop has asked of the backend and reported. *)
Lemma acquire_attempts (args : Args) (w : World) (st : state) (res : py_result (list Z)) :
  run_acquire args w = (st, res) ->
  error_reports (trace st) = match res with Raise (SystemExit _) => 1 | _ => 0 end%nat /\
  (forall ids, parse (gpus args) = Some ids ->
               exists rest, ids = attempted (trace st) ++ rest /\
                            Forall (fun g => 0 <= g < device_count w) (attempted (trace st))) /\
  (acquire_calls (trace st) <= S (List.length (acquired (trace st))))%nat /\
  match res with
  | Return ids =>
      attempted (trace st) = ids /\
      exists n, num_elements (memory args) = Return n /\ 0 <= n /\
                tensors st = map (fresh_tensor n) ids
  | Raise e => e = SystemExit 1 \/ num_elements (memory args) = Raise e
  end.
Proof.
  unfold acquire.
  destruct (check_dependencies w) as [m|] eqn:Hdeps.
  { intros H; inversion H; subst. unfold check_dependencies in Hdeps.
    destruct (torch_status w); inversion Hdeps; subst; cbn; conj;
      try (now left); try lia; intros ids _; exists ids; conj; constructor. }
  destruct (parse (gpus args)) as [ids|] eqn:Hparse.
  2:{ intros H; inversion H; subst. cbn. conj; try (now left); try lia. discriminate. }
  destruct (first_invalid (device_count w) ids) as [g|] eqn:Hvalid.
  { intros H; inversion H; subst. cbn. conj; try (now left); try lia.
    intros ids' E. exists ids'. conj. constructor. }
  assert (Hrange : Forall (fun g => 0 <= g < device_count w) ids).
  { apply Forall_forall. intros g Hin.
    pose proof (find_none _ _ Hvalid g Hin) as Hg.
    destruct (Z_lt_dec g 0); [|destruct (Z_lt_dec g (device_count w))]; try lia;
      exfalso; assert (out_of_range (device_count w) g = true)
        by (apply out_of_range_iff; lia); congruence. }
  destruct (allocate_all _ _ _ _ _) as [st1 res1] eqn:Hall.
  destruct (allocate_all_attempts _ _ _ _ _ _ _ Hall)
    as (new & rest & Hids & Hatt & Herr & Hres).
  destruct (allocate_all_spec _ _ _ _ _ _ _ Hall) as (evs & Htr & _ & _ & _ & Hspec).
  cbn in Hatt, Herr.
  assert (Hprefix : forall ids', Some ids = Some ids' ->
            exists rest', ids' = attempted (trace st1) ++ rest' /\
                          Forall (fun g => 0 <= g < device_count w) (attempted (trace st1))).
  { intros ids' E. inversion E; subst ids'. exists rest. rewrite Hatt. conj.
    rewrite Hids in Hrange. now apply Forall_app in Hrange. }
  destruct res1 as [[]|e]; intros H; inversion H; subst st res; clear H.
  - destruct Hres as (-> & Hn & Hcontents). rewrite app_nil_r in Hids. subst new.
    destruct Hspec as (Hts & _ & Hdev & _).
    assert (Hne : ids <> []) by (eapply parsed_nonempty; exact Hparse).
    destruct (Hn Hne) as (n & Hnum & Hpos).
    specialize (Hcontents n Hnum). cbn in Hcontents.
    split; [lia|]. split; [exact Hprefix|]. split.
    { rewrite acquire_calls_attempted, Hatt, Hcontents, length_map. cbn. lia. }
    split; [exact Hatt|].
    exists n. conj. rewrite Htr, acquired_app in Hcontents. rewrite Hts. exact Hcontents.
  - split; [destruct e; try lia; exact Herr|]. split; [exact Hprefix|]. split.
    { rewrite acquire_calls_attempted, Hatt. cbn in Hres |- *. lia. }
    destruct Hspec as (j & _ & _ & _ & _ & [(-> & _) | (Hnum & _)]); [now left | now right].
Qed.

Lemma announce_trace (args : Args) (w : World) (ids : list Z) (st : state) :
  trace (announce args w ids st)
  = trace st ++ [Printed (MsgHolding ids);
                 Printed (if 0 <? duration args then MsgWillRelease (duration args)
                          else MsgPressCtrlC);
                 HandlersInstalled].
Proof.
  unfold announce, enter, emit. simpl. now rewrite <- !app_assoc.
Qed.

(** The trace of a run is the trace of its acquisition, and then what
    the hold added. *)
Lemma run_shapes (args : Args) (w : World) (ticks : list tick) :
  exists st0 res after,
    run_acquire args w = (st0, res) /\
    trace (final (run_main args w ticks)) = trace st0 ++ after /\
    ((exists e,
        res = Raise e /\ outcome (run_main args w ticks) = Exited 1 /\
        (e = SystemExit 1 /\ after = []
         \/ (e = ValueError \/ e = OverflowError) /\ after = [Traceback e]))
     \/ (exists ids says evs tail,
           res = Return ids /\ forallb is_idle_event evs = true /\
           (says = MsgWillRelease (duration args) \/ says = MsgPressCtrlC) /\
           after = [Printed (MsgHolding ids); Printed says; HandlersInstalled] ++ evs ++ tail /\
           ((tail = [] /\ exists p, outcome (run_main args w ticks) = Holding p)
            \/ (outcome (run_main args w ticks) = Exited 0 /\
                exists now held,
                  tail = [Checked now true; Printed (MsgDurationReached (duration args));
                          Cleared held; EmptyCache; Printed MsgReleased])
            \/ (outcome (run_main args w ticks) = Exited 0 /\
                exists s p held,
                  tail = [Handler s p; Printed MsgReleasing; Cleared held; EmptyCache;
                          Printed MsgDone])
            \/ (outcome (run_main args w ticks) = Exited 1 /\
                tail = [Traceback (RuntimeError false)])))).
Proof.
  destruct (run_acquire args w) as [st0 [ids|e]] eqn:Hacq.
  - destruct (held_run_shapes str_strip str_to_int args w ticks st0 ids Hacq)
      as (evs & Hidle & Hshape).
    rewrite (announce_trace args w ids st0) in Hshape.
    set (says := if 0 <? duration args then MsgWillRelease (duration args)
                 else MsgPressCtrlC) in *.
    assert (Hsays : says = MsgWillRelease (duration args) \/ says = MsgPressCtrlC)
      by (subst says; destruct (0 <? duration args); auto).
    destruct Hshape as [(p & Hout & Htr & _)
                       | [(now & held & Hout & _ & Htr & _)
                         | [(s & p & held & Hout & Htr & _)
                           | (Hout & Htr & _)]]].
    + exists st0, (Return ids), ([Printed (MsgHolding ids); Printed says; HandlersInstalled]
                                 ++ evs ++ []).
      conj. { rewrite Htr, app_nil_r, <- app_assoc. reflexivity. }
      right. exists ids, says, evs, []. conj. left. conj. now exists p.
    + eexists st0, (Return ids), _. conj. { rewrite Htr, <- app_assoc. reflexivity. }
      right. exists ids, says, evs. eexists. conj. right; left. conj. now exists now, held.
    + eexists st0, (Return ids), _. conj. { rewrite Htr, <- app_assoc. reflexivity. }
      right. exists ids, says, evs. eexists. conj. right; right; left. conj.
      now exists s, p, held.
    + eexists st0, (Return ids), _. conj. { rewrite Htr, <- app_assoc. reflexivity. }
      right. exists ids, says, evs. eexists. conj. right; right; right. conj.
  - destruct (failed_run str_strip str_to_int args w ticks st0 e Hacq) as (Hout & _).
    destruct (acquire_attempts _ _ _ _ Hacq) as (_ & _ & _ & [-> | Hnum]).
    + exists st0, (Raise (SystemExit 1)), []. conj.
      { unfold main. rewrite Hacq. cbn. now rewrite app_nil_r. }
      left. exists (SystemExit 1). conj. left. conj.
    + exists st0, (Raise e), [Traceback e]. conj.
      { unfold main. rewrite Hacq.
        destruct (num_elements_raises _ _ Hnum) as [-> | ->]; reflexivity. }
      left. exists e. conj. right. conj. now apply num_elements_raises in Hnum.
Qed.

Ltac readings :=
  rewrite ?attempted_app, ?acquired_app, ?released_app, ?error_reports_app,
    ?clear_calls_app, ?empty_cache_calls_app, ?sleeps_app, ?acquire_calls_app,
    ?hold_started_app.

(** [X5] The backend is asked for the requested devices in request
    order, each at most once, and for nothing else: the devices
    [allocate_memory] was called for form a prefix of the parsed list, all
    lie in [0, N), and at most one of the calls failed (the loop stops at
    the first failure, without retry). *)
Theorem attempts_follow_request (args : Args) (w : World) (ticks : list tick)
    (ids : list Z) :
  parse (gpus args) = Some ids ->
  (exists rest, ids = attempted (trace (final (run_main args w ticks))) ++ rest) /\
  Forall (fun g => 0 <= g < device_count w)
    (attempted (trace (final (run_main args w ticks)))) /\
  acquire_calls (trace (final (run_main args w ticks)))
  = List.length (attempted (trace (final (run_main args w ticks)))) /\
  (acquire_calls (trace (final (run_main args w ticks)))
   <= S (List.length (acquired (trace (final (run_main args w ticks))))))%nat.
Proof.
  intros Hparse.
  destruct (run_shapes args w ticks) as (st0 & res & after & Hacq & Htr & Hshape).
  destruct (acquire_attempts _ _ _ _ Hacq) as (_ & Hprefix & Hcalls & _).
  destruct (Hprefix ids Hparse) as (rest & Hids & Hrange).
  assert (Hafter : attempted after = [] /\ acquired after = []).
  { destruct Hshape as [(e & _ & _ & [(_ & ->) | (_ & ->)])
                       | (ids' & says & evs & tail & _ & Hidle & _ & -> & Htail)];
      [conj | conj |].
    destruct (idle_silent _ Hidle) as (Ha & _). destruct (idle_quiet _ Hidle) as (Hq & _).
    readings. rewrite Ha, Hq.
    destruct Htail as [(-> & _) | [(_ & ? & ? & ->) | [(_ & ? & ? & ? & ->) | (_ & ->)]]];
      conj. }
  destruct Hafter as (Ha & Hq).
  rewrite (acquire_calls_attempted (trace (final (run_main args w ticks)))).
  rewrite Htr. readings. rewrite Ha, Hq, !app_nil_r.
  rewrite acquire_calls_attempted in Hcalls. conj. now exists rest.
Qed.

(** [X6] While the run stands in the loop, what it holds is determined
    by the request: one tensor per requested identifier, in request order
    (an identifier given twice is held twice), each on its device, each
    of [num_elements] elements, all 1.0 -- the constant added to one
    tensor while the loop stands between the two halves of its keep-alive. *)
Theorem held_tensors_follow_request (args : Args) (w : World) (ticks : list tick) (p : pc) :
  outcome (run_main args w ticks) = Holding p ->
  exists ids n,
    parse (gpus args) = Some ids /\ ids <> [] /\
    num_elements (memory args) = Return n /\ 0 <= n /\
    tensors (final (run_main args w ticks)) = contents_at p (map (fresh_tensor n) ids) /\
    map device (tensors (final (run_main args w ticks))) = ids /\
    Forall (fun t => List.length (data t) = Z.to_nat n)
      (tensors (final (run_main args w ticks))).
Proof.
  intros Hhold.
  destruct (run_acquire args w) as [st0 [ids|e]] eqn:Hacq.
  2:{ destruct (failed_run str_strip str_to_int args w ticks st0 e Hacq) as (Hout & _).
      congruence. }
  destruct (acquire_spec str_strip str_to_int _ _ _ _ Hacq)
    as (_ & _ & Hparse & _ & _ & _ & Hones & _).
  destruct (acquire_attempts _ _ _ _ Hacq) as (_ & _ & _ & _ & n & Hnum & Hpos & Hts0).
  destruct (announce_spec args w ids st0) as (Hts & _ & _).
  exists ids, n.
  assert (Hheld : tensors (final (run_main args w ticks))
                  = contents_at p (map (fresh_tensor n) ids)).
  { rewrite (main_held str_strip str_to_int args w ticks st0 ids Hacq) in Hhold |- *.
    destruct (hold_loop args w AtSleep ticks (announce args w ids st0))
      as [st' fin] eqn:Hloop.
    destruct fin as [ |e|p']; [discriminate | destruct e; discriminate |].
    simpl in Hhold. injection Hhold as ->. simpl. rewrite <- Hts0.
    eapply (hold_loop_contents args w (tensors st0) ticks Hones AtSleep); [|exact Hloop].
    exact Hts. }
  rewrite Hheld. conj.
  - eapply parsed_nonempty; exact Hparse.
  - assert (Hplain : map device (map (fresh_tensor n) ids) = ids)
      by (rewrite map_map; apply map_id).
    destruct p as [ |i|i| ]; cbn [contents_at]; try exact Hplain.
    rewrite <- Hplain at 2. generalize (map (fresh_tensor n) ids). clear.
    intros l. revert i. induction l as [|t rest IH]; intros [|i]; simpl; auto.
    now rewrite IH.
  - assert (Hplain : Forall (fun t => List.length (data t) = Z.to_nat n)
                       (map (fresh_tensor n) ids)).
    { apply Forall_forall. intros t Hin. apply in_map_iff in Hin.
      destruct Hin as (g & <- & _). unfold fresh_tensor, iadd_scalar, zeros. simpl.
      now rewrite length_map, repeat_length. }
    destruct p as [ |i|i| ]; cbn [contents_at]; try exact Hplain.
    revert Hplain. generalize (map (fresh_tensor n) ids). clear.
    intros l H. revert i. induction H as [|t rest Ht Hrest IH]; intros [|i]; simpl;
      constructor; auto.
    unfold iadd_scalar. simpl. now rewrite length_map.
Qed.

(** [X7] The script reports its failures, and only those: a run that
    exits with status 1 has made exactly one error report (an "Error"
    message of the script, or a traceback); a run that exits with status
    0 and a run still holding have made none. *)
Theorem failures_are_reported (argv : command_line) (w : World) (ticks : list tick) :
  match outcome (run_script argv w ticks) with
  | Exited 1 => error_reports (trace (final (run_script argv w ticks))) = 1%nat
  | Exited 0 | Holding _ => error_reports (trace (final (run_script argv w ticks))) = 0%nat
  | Exited _ => True
  end.
Proof.
  destruct argv as [ | |args]; [exact I | reflexivity |].
  change (run_script (Accepted args) w ticks) with (run_main args w ticks).
  destruct (run_shapes args w ticks) as (st0 & res & after & Hacq & Htr & Hshape).
  destruct (acquire_attempts _ _ _ _ Hacq) as (Herr & _).
  rewrite Htr. readings. rewrite Herr.
  destruct Hshape as [(e & -> & Hout & [(-> & ->) | (He & ->)])
                     | (ids' & says & evs & tail & -> & Hidle & Hsays & -> & Htail)].
  - rewrite Hout. reflexivity.
  - rewrite Hout. destruct He as [-> | ->]; reflexivity.
  - destruct (idle_silent _ Hidle) as (_ & He & _).
    readings. rewrite He.
    assert (Hentry : error_reports [Printed (MsgHolding ids'); Printed says;
                                    HandlersInstalled] = 0%nat)
      by (destruct Hsays as [-> | ->]; reflexivity).
    rewrite Hentry.
    destruct Htail as [(-> & p & Hout)
                      | [(Hout & ? & ? & ->) | [(Hout & ? & ? & ? & ->) | (Hout & ->)]]];
      rewrite Hout; reflexivity.
Qed.

Lemma allocate_all_no_cache (w : World) (m : spec_float) (ids : list Z) :
  forall (k : nat) (st st' : state) (res : py_result unit),
    allocate_all w m k ids st = (st', res) ->
    empty_cache_calls (trace st') = empty_cache_calls (trace st).
Proof.
  induction ids as [|g others IH]; intros k st st' res H; simpl in H.
  - now inversion H.
  - destruct (allocate_memory_detail w k g m (emit (Printed (MsgAllocatingOn g)) st))
      as [(n & _ & _ & _ & E) | [(n & says & _ & _ & E) | (e & _ & E)]];
      rewrite E in H.
    + apply IH in H. rewrite H. cbn [emit append trace]. readings. cbn. lia.
    + inversion H; subst. cbn [emit clear trace]. readings. cbn. lia.
    + inversion H; subst. cbn [emit trace]. readings. cbn. lia.
Qed.

Lemma acquire_clears (args : Args) (w : World) (st : state) (res : py_result (list Z)) :
  run_acquire args w = (st, res) ->
  empty_cache_calls (trace st) = 0%nat /\
  (clear_calls (trace st) <= 1)%nat /\
  (forall ids, res = Return ids -> clear_calls (trace st) = 0%nat).
Proof.
  unfold acquire.
  destruct (check_dependencies w) as [m|]; [intros H; inversion H; subst; cbn; conj; auto; discriminate|].
  destruct (parse (gpus args)) as [ids|]; [|intros H; inversion H; subst; cbn; conj; auto; discriminate].
  destruct (first_invalid (device_count w) ids) as [g|];
    [intros H; inversion H; subst; cbn; conj; auto; discriminate|].
  destruct (allocate_all _ _ _ _ _) as [st1 res1] eqn:Hall.
  pose proof (allocate_all_no_cache _ _ _ _ _ _ _ Hall) as Hcache.
  destruct (allocate_all_spec _ _ _ _ _ _ _ Hall) as (evs & Htr & _ & _ & Hclr & _).
  cbn in Hcache.
  assert (Hcount : clear_calls (trace st1)
                   = match res1 with Raise (SystemExit _) => 1%nat | _ => 0%nat end)
    by (rewrite Htr, clear_calls_app, Hclr; reflexivity).
  destruct res1 as [[]|e]; intros H; inversion H; subst; rewrite Hcount; conj; auto.
  - destruct e; lia.
  - discriminate.
Qed.

(** [X8] [torch.cuda.empty_cache()] is never called more often than
    [tensors.clear()], and neither is called while the loop is still
    running; an exit with status 0 that is not the one of [--help] has
    called both. *)
Theorem cache_emptied_after_clear (argv : command_line) (w : World) (ticks : list tick) :
  (empty_cache_calls (trace (final (run_script argv w ticks)))
   <= clear_calls (trace (final (run_script argv w ticks))))%nat /\
  match outcome (run_script argv w ticks) with
  | Holding _ => clear_calls (trace (final (run_script argv w ticks))) = 0%nat /\
                 empty_cache_calls (trace (final (run_script argv w ticks))) = 0%nat
  | Exited 0 => argv = HelpRequested
                \/ ((1 <= clear_calls (trace (final (run_script argv w ticks))))%nat /\
                    (1 <= empty_cache_calls (trace (final (run_script argv w ticks))))%nat)
  | Exited _ => True
  end.
Proof.
  destruct argv as [ | |args]; [split; [apply Nat.le_refl | exact I]
                               | split; [apply Nat.le_refl | now left] |].
  change (run_script (Accepted args) w ticks) with (run_main args w ticks).
  destruct (run_shapes args w ticks) as (st0 & res & after & Hacq & Htr & Hshape).
  destruct (acquire_clears _ _ _ _ Hacq) as (Hcache & Hclr & Hret).
  rewrite Htr. readings. rewrite Hcache.
  destruct Hshape as [(e & -> & Hout & [(-> & ->) | (He & ->)])
                     | (ids' & says & evs & tail & -> & Hidle & Hsays & -> & Htail)].
  - rewrite Hout. cbn. split; [lia | exact I].
  - rewrite Hout. cbn. split; [lia | exact I].
  - destruct (idle_silent _ Hidle) as (_ & _ & Hc). destruct (idle_quiet _ Hidle) as (_ & _ & Hq).
    rewrite (Hret ids' eq_refl). readings. rewrite Hc, Hq.
    destruct Htail as [(-> & p & Hout)
                      | [(Hout & ? & ? & ->) | [(Hout & ? & ? & ? & ->) | (Hout & ->)]]];
      rewrite Hout; cbn; (split; [lia|]); try exact I; try (split; lia); right; split; lia.
Qed.

(** [X9] The signal handlers are installed once, after all allocation
    and before any activity of the loop: a run that got as far as the
    loop splits at the installation into a part that holds every call of
    [allocate_memory] and nothing of the loop, and a part without
    allocation and without a second installation. *)
Theorem handlers_after_allocation (args : Args) (w : World) (ticks : list tick) :
  hold_started (trace (final (run_main args w ticks))) = true ->
  exists pre post,
    trace (final (run_main args w ticks)) = pre ++ HandlersInstalled :: post /\
    hold_started pre = false /\
    attempted pre = attempted (trace (final (run_main args w ticks))) /\
    attempted post = [] /\
    ~ In HandlersInstalled post.
Proof.
  intros Hheld.
  destruct (run_shapes args w ticks) as (st0 & res & after & Hacq & Htr & Hshape).
  destruct (acquire_spec str_strip str_to_int _ _ _ _ Hacq) as (Hhold & _).
  rewrite Htr in *.
  destruct Hshape as [(e & -> & Hout & [(-> & ->) | (He & ->)])
                     | (ids' & says & evs & tail & -> & Hidle & Hsays & -> & Htail)].
  - rewrite app_nil_r in Hheld. congruence.
  - rewrite hold_started_app, Hhold in Hheld. discriminate.
  - exists (trace st0 ++ [Printed (MsgHolding ids'); Printed says]), (evs ++ tail).
    destruct (idle_silent _ Hidle) as (Ha & _).
    assert (Htail' : attempted tail = [] /\ ~ In HandlersInstalled tail).
    { destruct Htail as [(-> & _) | [(_ & ? & ? & ->) | [(_ & ? & ? & ? & ->) | (_ & ->)]]];
        (split; [reflexivity|]); simpl; intuition discriminate. }
    destruct Htail' as (Hat & Hnot).
    readings. rewrite Ha, Hat, Hhold. cbn. rewrite !app_nil_r. conj.
    + now rewrite <- !app_assoc.
    + intros Hin. apply in_app_or in Hin. destruct Hin as [Hin | Hin]; [|contradiction].
      assert (Hev : forallb is_idle_event evs = true) by exact Hidle.
      rewrite forallb_forall in Hev. specialize (Hev _ Hin). discriminate.
Qed.

(** [X10] A [--memory] whose element count cannot be computed -- [int]
    raises [ValueError] on NaN and [OverflowError] on an infinity, which
    [allocate_memory] does not catch -- ends the run with a traceback at
    the first device: one call of [allocate_memory], nothing acquired,
    [tensors.clear()] not called, status 1. *)
Theorem uncountable_memory_crashes (args : Args) (w : World) (ticks : list tick)
    (ids : list Z) (e : exn) :
  check_dependencies w = None ->
  parse (gpus args) = Some ids ->
  first_invalid (device_count w) ids = None ->
  num_elements (memory args) = Raise e ->
  num_elements S754_nan = Raise ValueError /\
  (forall s, num_elements (S754_infinity s) = Raise OverflowError) /\
  final (run_main args w ticks)
  = {| tensors := [];
       trace := [Printed (MsgAllocating (memory args) ids);
                 Printed (MsgAllocatingOn (hd 0 ids));
                 AcquireFailed (hd 0 ids);
                 Traceback e];
       clock := 0 |} /\
  outcome (run_main args w ticks) = Exited 1.
Proof.
  intros Hdeps Hparse Hvalid Hnum.
  split; [reflexivity|]. split; [intros [|]; reflexivity|].
  assert (Hne : ids <> []) by (eapply parsed_nonempty; exact Hparse).
  destruct ids as [|g others]; [congruence|].
  unfold main, acquire. rewrite Hdeps, Hparse, Hvalid.
  cbn [allocate_all]. unfold allocate_memory. rewrite Hnum.
  destruct (num_elements_raises _ _ Hnum) as [-> | ->]; split; reflexivity.
Qed.


Lemma Forall2_through_map {A B C : Type} (P : A -> C -> Prop) (f : B -> C) (l' : list B) :
  forall l : list A, Forall2 P l (map f l') <-> Forall2 (fun a b => P a (f b)) l l'.
Proof.
  induction l' as [|b rest IH]; intros l; cbn [map].
  - split; intros H; inversion H; constructor.
  - split; intros H; inversion H; subst; constructor; auto; now apply IH.
Qed.

(** [C8, as the code has it] Exit status.  [argparse] comes first: a
    command line it rejects ends the process with status 2, a request for
    help with status 0, in both cases before anything is asked of the
    devices.  Once the command line is accepted, the status is 0 exactly
    when one reservation was acquired for each piece of the [--gpus]
    value, on the device that piece names, and the loop was left through
    the timeout or through the signal handler, with all reservations
    dropped; it is 1 when a piece of the value is no integer, when an
    identifier is out of range, and when an acquisition fails, in which
    case the hold loop is not entered. *)
Theorem exit_status (args : Args) (w : World) (ticks : list tick) :
  outcome (run_script Rejected w ticks) = Exited 2 /\
  (outcome (run_script HelpRequested w ticks) = Exited 0 /\
   acquire_calls (trace (final (run_script HelpRequested w ticks))) = 0%nat) /\
  (outcome (run_script (Accepted args) w ticks) = Exited 0 <->
   Forall2 (fun piece t => str_to_int (str_strip piece) = Some (device t))
     (split ","%char (gpus args))
     (acquired (trace (final (run_script (Accepted args) w ticks)))) /\
   tensors (final (run_script (Accepted args) w ticks)) = [] /\
   List.length (released (trace (final (run_script (Accepted args) w ticks))))
   = List.length (acquired (trace (final (run_script (Accepted args) w ticks)))) /\
   (timed_out (trace (final (run_script (Accepted args) w ticks)))
    \/ signalled (trace (final (run_script (Accepted args) w ticks))))) /\
  (Exists (fun piece => str_to_int (str_strip piece) = None) (split ","%char (gpus args)) ->
   outcome (run_script (Accepted args) w ticks) = Exited 1) /\
  (forall ids,
     Forall2 (fun piece z => str_to_int (str_strip piece) = Some z)
       (split ","%char (gpus args)) ids ->
     Exists (fun g => ~ (0 <= g < device_count w)) ids ->
     outcome (run_script (Accepted args) w ticks) = Exited 1) /\
  (forall ids k,
     Forall2 (fun piece z => str_to_int (str_strip piece) = Some z)
       (split ","%char (gpus args)) ids ->
     (k < List.length ids)%nat ->
     acquires w (memory args) k (nth k ids 0) = false ->
     outcome (run_script (Accepted args) w ticks) = Exited 1 /\
     hold_started (trace (final (run_script (Accepted args) w ticks))) = false).
Proof.
  split; [reflexivity|]. split; [split; reflexivity|].
  change (run_script (Accepted args) w ticks) with (run_main args w ticks).
  destruct (run_acquire args w) as [st0 [ids|e]] eqn:Hacq.
  - (* the loop was reached *)
    destruct (acquire_spec str_strip str_to_int _ _ _ _ Hacq)
      as (_ & _ & Hparse & Hvalid & _ & Hdev & _ & _ & _ & Hok).
    assert (Hpieces : Forall2 (fun piece z => str_to_int (str_strip piece) = Some z)
                        (split ","%char (gpus args)) ids)
      by (now apply ints_of_some).
    assert (Hsame : forall ids',
              Forall2 (fun piece z => str_to_int (str_strip piece) = Some z)
                (split ","%char (gpus args)) ids' -> ids' = ids).
    { intros ids' H. apply ints_of_some in H. unfold parse_gpu_ids in Hparse. congruence. }
    destruct (held_run_shapes str_strip str_to_int args w ticks st0 ids Hacq)
      as (evs & Hidle & Hshape).
    assert (Hno : forall tail, existsb is_stop_event tail = false ->
              trace (final (run_main args w ticks))
              = trace (announce args w ids st0) ++ evs ++ tail ->
              ~ (timed_out (trace (final (run_main args w ticks)))
                 \/ signalled (trace (final (run_main args w ticks))))).
    { intros tail Htail Htr Hstop.
      assert (existsb is_stop_event (trace (final (run_main args w ticks))) = true)
        by (destruct Hstop; [now apply timed_out_stop | now apply signalled_stop]).
      rewrite Htr in H.
      destruct (held_trace str_strip str_to_int args w st0 ids evs tail Hacq Hidle)
        as (_ & _ & _ & _ & E).
      congruence. }
    split; [|split; [|split]].
    + destruct Hshape as [(p & Hout & Htr & Hlen)
                         | [(now & held & Hout & Hto & Htr & Hlen & Hnil)
                           | [(s & p & held & Hout & Htr & Hlen & Hnil)
                             | (Hout & Htr & Hlen & _)]]].
      * split; [rewrite Hout; discriminate|]. intros (_ & _ & _ & Hstop).
        exfalso. apply (Hno []); [reflexivity | now rewrite app_nil_r | exact Hstop].
      * split; [intros _ | intros _; exact Hout].
        match type of Htr with _ = _ ++ _ ++ ?tail =>
          destruct (held_trace str_strip str_to_int args w st0 ids evs tail Hacq Hidle)
            as (Ha & Hr & _)
        end.
        rewrite Htr, Ha, Hr. cbn [acquired released flat_map app].
        rewrite !app_nil_r, Hlen, <- Hdev, length_map.
        split; [|split; [exact Hnil|split; [reflexivity|]]].
        -- apply (Forall2_through_map
                    (fun piece z => str_to_int (str_strip piece) = Some z) device).
           now rewrite Hdev.
        -- left. exists now. apply in_or_app. right. apply in_or_app. right. now left.
      * split; [intros _ | intros _; exact Hout].
        match type of Htr with _ = _ ++ _ ++ ?tail =>
          destruct (held_trace str_strip str_to_int args w st0 ids evs tail Hacq Hidle)
            as (Ha & Hr & _)
        end.
        rewrite Htr, Ha, Hr. cbn [acquired released flat_map app].
        rewrite !app_nil_r, Hlen, <- Hdev, length_map.
        split; [|split; [exact Hnil|split; [reflexivity|]]].
        -- apply (Forall2_through_map
                    (fun piece z => str_to_int (str_strip piece) = Some z) device).
           now rewrite Hdev.
        -- right. exists s, p. apply in_or_app. right. apply in_or_app. right. now left.
      * split; [rewrite Hout; discriminate|]. intros (_ & _ & _ & Hstop).
        exfalso.
        apply (Hno [Traceback (RuntimeError false)]); [reflexivity | exact Htr | exact Hstop].
    + intros Hbad. apply ints_of_none in Hbad. unfold parse_gpu_ids in Hparse. congruence.
    + intros ids' Hids Hout. rewrite (Hsame ids' Hids) in Hout. exfalso.
      apply Exists_exists in Hout. destruct Hout as (g & Hin & Hg).
      pose proof (find_none _ _ Hvalid g Hin) as Hfine.
      apply Hg. destruct (Z_lt_dec g 0); [|destruct (Z_lt_dec g (device_count w))]; try lia;
        exfalso; assert (out_of_range (device_count w) g = true)
          by (apply out_of_range_iff; lia); congruence.
    + intros ids' k Hids Hk Hko. rewrite (Hsame ids' Hids) in Hk, Hko.
      rewrite (Hok k Hk) in Hko. discriminate.
  - (* the run failed before the loop *)
    destruct (failed_run str_strip str_to_int args w ticks st0 e Hacq) as (Hout & Hhold & _).
    split; [|split; [|split]]; try (intros; conj; fail).
    split; [rewrite Hout; discriminate|]. intros (_ & _ & _ & Hstop). exfalso.
    assert (existsb is_stop_event (trace (final (run_main args w ticks))) = true)
      by (destruct Hstop; [now apply timed_out_stop | now apply signalled_stop]).
    rewrite (not_hold_not_stop _ Hhold) in H. discriminate.
Qed.

End Conduct.

(** ** The loop, pass by pass *)

Lemma update_nth_pass {A : Type} (f : A -> A) (l : list A) (i : nat) :
  (i < List.length l)%nat ->
  firstn (S i) (update_nth i f l) ++ map f (skipn (S i) (update_nth i f l))
  = firstn i l ++ map f (skipn i l).
Proof.
  revert i. induction l as [|x rest IH]; intros i Hi; simpl in Hi; [lia|].
  destruct i as [|j].
  - reflexivity.
  - cbn [update_nth]. specialize (IH j ltac:(lia)).
    change (firstn (S (S j)) (x :: update_nth j f rest))
      with (x :: firstn (S j) (update_nth j f rest)).
    change (skipn (S (S j)) (x :: update_nth j f rest))
      with (skipn (S j) (update_nth j f rest)).
    change (firstn (S j) (x :: rest)) with (x :: firstn j rest).
    change (skipn (S j) (x :: rest)) with (skipn j rest).
    rewrite <- !app_comm_cons. f_equal. exact IH.
Qed.

(** The [for] loop from tensor [i] on, nothing disturbing it. *)
Lemma touches_pass (args : Args) (w : World) (m : nat) :
  forall (i : nat) (st : state) (ticks : list tick),
    (i + m)%nat = List.length (tensors st) ->
    List.length ticks = (2 * m)%nat ->
    Forall undisturbed ticks ->
    exists st',
      hold_loop args w (for_head i st) ticks st = (st', LoopPending AtCheck) /\
      trace st' = trace st ++ map Touched (seq i m) /\
      tensors st' = firstn i (tensors st) ++ map keep_alive (skipn i (tensors st)).
Proof.
  induction m as [|m IH]; intros i st ticks Hlen Hticks Hcalm.
  - destruct ticks; [|discriminate]. exists st. simpl. rewrite app_nil_r.
    assert (Hi : i = List.length (tensors st)) by lia.
    unfold for_head. replace (i <? _)%nat with false by (symmetry; apply Nat.ltb_ge; lia).
    conj. rewrite Hi, firstn_all, skipn_all. simpl. now rewrite app_nil_r.
  - destruct ticks as [|t1 [|t2 rest]]; try (simpl in Hticks; lia).
    inversion Hcalm as [|? ? [Hs1 Hf1] Hcalm1]; subst.
    inversion Hcalm1 as [|? ? [Hs2 Hf2] Hcalm2]; subst.
    set (st2 := elapse (lag t2) (emit (Touched i)
                  (touch_sub i (elapse (lag t1) (touch_add i st))))).
    assert (Hts2 : tensors st2 = update_nth i keep_alive (tensors st))
      by (simpl; now rewrite update_nth_twice).
    assert (Hlen2 : List.length (tensors st2) = List.length (tensors st))
      by (rewrite Hts2; apply update_nth_length).
    destruct (IH (S i) st2 rest) as (st' & Hrun & Htr & Hts);
      [rewrite Hlen2; lia | simpl in Hticks; lia | exact Hcalm2 |].
    exists st'. conj.
    + unfold for_head at 1. replace (i <? _)%nat with true
        by (symmetry; apply Nat.ltb_lt; lia).
      cbn [hold_loop]. unfold step at 1. rewrite Hs1. cbn [exec]. rewrite Hf1.
      cbn [hold_loop]. unfold step at 1. rewrite Hs2. cbn [exec]. rewrite Hf2.
      rewrite <- Hrun. f_equal. apply for_head_length.
      simpl. now rewrite !update_nth_length.
    + rewrite Htr. simpl. now rewrite <- app_assoc.
    + rewrite Hts, Hts2. apply update_nth_pass. lia.
Qed.

(** [X13] One pass of the keep-alive.  From the top of an iteration,
    with no signal and no backend failure, the loop sleeps once and then
    applies the keep-alive to every tensor of the list, each exactly once
    and in list order, before it comes to the timeout test. *)
Theorem keep_alive_pass (args : Args) (w : World) (st : state) (ticks : list tick) :
  List.length ticks = S (2 * List.length (tensors st)) ->
  Forall undisturbed ticks ->
  exists st',
    hold_loop args w AtSleep ticks st = (st', LoopPending AtCheck) /\
    trace st' = trace st ++ Slept 10 :: map Touched (seq 0 (List.length (tensors st))) /\
    tensors st' = map keep_alive (tensors st).
Proof.
  intros Hticks Hcalm.
  destruct ticks as [|t rest]; [discriminate|].
  inversion Hcalm as [|? ? [Hs Hf] Hrest]; subst.
  set (st1 := elapse (10 + lag t) (emit (Slept 10) st)).
  destruct (touches_pass args w (List.length (tensors st)) 0 st1 rest)
    as (st' & Hrun & Htr & Hts); [reflexivity | simpl in Hticks; lia | exact Hrest |].
  exists st'. conj.
  - cbn [hold_loop]. unfold step at 1. rewrite Hs. cbn [exec].
    replace (for_head 0 st) with (for_head 0 st1) by (now apply for_head_length).
    exact Hrun.
  - rewrite Htr. simpl. now rewrite <- app_assoc.
Qed.

(** ** Which signal it was does not matter *)

Lemma step_unlabel (args : Args) (w : World) (p : pc) (t : tick) (st : state) :
  step args w p (as_sigterm t) (unlabel_state st)
  = (unlabel_state (fst (step args w p t st)), snd (step args w p t st)).
Proof.
  unfold step, as_sigterm. cbn [sig]. destruct (sig t) as [s|]; cbn [option_map].
  - unfold signal_handler, unlabel_state, emit, clear. cbn.
    now rewrite !map_app.
  - unfold exec. cbn [fault lag].
    destruct p as [ |i|i| ]; cbn [unlabel_state clock tensors].
    + unfold unlabel_state, elapse, emit, for_head. cbn. now rewrite map_app.
    + destruct (fault t); reflexivity.
    + destruct (fault t); [reflexivity|].
      unfold unlabel_state, elapse, emit, touch_sub, for_head. cbn. now rewrite map_app.
    + destruct (timeout_reached _ _ _);
        unfold unlabel_state, elapse, emit; cbn; now rewrite !map_app.
Qed.

Lemma hold_loop_unlabel (args : Args) (w : World) (ticks : list tick) :
  forall p st,
    hold_loop args w p (map as_sigterm ticks) (unlabel_state st)
    = (unlabel_state (fst (hold_loop args w p ticks st)), snd (hold_loop args w p ticks st)).
Proof.
  induction ticks as [|t rest IH]; intros p st; [reflexivity|].
  cbn [map hold_loop]. rewrite step_unlabel.
  destruct (step args w p t st) as [st1 [p1| |e]]; cbn [fst snd]; auto.
Qed.

Lemma unlabel_quiet (evs : list event) :
  existsb is_stop_event evs = false -> map unlabel evs = evs.
Proof.
  induction evs as [|e rest IH]; cbn [existsb map]; [reflexivity|].
  rewrite orb_false_iff. intros [He Hrest]. rewrite (IH Hrest).
  destruct e; try reflexivity. discriminate.
Qed.

(** ** Sleeps and the duration *)

(** When no statement ends early: the clock has gone by 10 seconds per
    sleep, and every sleep but the last was followed by a timeout test
    that found the duration not yet reached. *)
Lemma sleeps_step (args : Args) (w : World) (p p' : pc) (t : tick) (st st' : state) :
  0 < duration args ->
  (0 <= lag t)%Q ->
  (start_clock w + inject_Z (10 * Z.of_nat (sleeps (trace st))) <= clock st)%Q ->
  match p with
  | AtSleep => 10 * Z.of_nat (sleeps (trace st)) < duration args
  | _ => 10 * (Z.of_nat (sleeps (trace st)) - 1) < duration args
  end ->
  step args w p t st = (st', Next p') ->
  (start_clock w + inject_Z (10 * Z.of_nat (sleeps (trace st'))) <= clock st')%Q /\
  match p' with
  | AtSleep => 10 * Z.of_nat (sleeps (trace st')) < duration args
  | _ => 10 * (Z.of_nat (sleeps (trace st')) - 1) < duration args
  end.
Proof.
  intros Hpos Hlag Hclk Hdone. unfold step. destruct (sig t); [discriminate|].
  destruct p as [ |i|i| ]; cbn [exec]; intros H.
  - injection H as <- <-. cbn [elapse emit trace clock]. rewrite sleeps_app.
    change (sleeps [Slept 10]) with 1%nat.
    replace (10 * Z.of_nat (sleeps (trace st) + 1)) with (10 * Z.of_nat (sleeps (trace st)) + 10)
      by lia.
    split.
    + rewrite inject_Z_plus. change (inject_Z 10) with 10%Q. lra.
    + unfold for_head. destruct (_ <? _)%nat; lia.
  - destruct (fault t); [discriminate|]. injection H as <- <-.
    cbn [elapse touch_add trace clock]. split; [lra | exact Hdone].
  - destruct (fault t); [discriminate|]. injection H as <- <-.
    cbn [elapse emit touch_sub trace clock]. rewrite sleeps_app.
    change (sleeps [Touched i]) with 0%nat. rewrite Nat.add_0_r. split; [lra|].
    unfold for_head. destruct (_ <? _)%nat; exact Hdone.
  - destruct (timeout_reached _ _ _) eqn:Hto; [discriminate|]. injection H as <- <-.
    cbn [elapse emit trace clock]. rewrite sleeps_app.
    change (sleeps [Checked (clock st) false]) with 0%nat. rewrite Nat.add_0_r.
    split; [lra|].
    unfold timeout_reached in Hto. apply andb_false_iff in Hto.
    destruct Hto as [Hd | Hle]; [apply Z.ltb_ge in Hd; lia|].
    assert (Hlt : (clock st - start_clock w < inject_Z (duration args))%Q).
    { apply Qnot_le_lt. intros Hle'. apply Qle_bool_iff in Hle'. congruence. }
    rewrite Zlt_Qlt. lra.
Qed.

Lemma sleeps_loop (args : Args) (w : World) (ticks : list tick) :
  0 < duration args ->
  Forall (fun t => 0 <= lag t)%Q ticks ->
  forall p st st' fin,
    (start_clock w + inject_Z (10 * Z.of_nat (sleeps (trace st))) <= clock st)%Q ->
    match p with
    | AtSleep => 10 * Z.of_nat (sleeps (trace st)) < duration args
    | _ => 10 * (Z.of_nat (sleeps (trace st)) - 1) < duration args
    end ->
    hold_loop args w p ticks st = (st', fin) ->
    10 * (Z.of_nat (sleeps (trace st')) - 1) < duration args.
Proof.
  intros Hpos.
  induction 1 as [|t rest Hlag Hrest IH]; intros p st st' fin Hclk Hdone H; simpl in H.
  - injection H as <- <-. destruct p; lia.
  - destruct (step args w p t st) as [st1 [p1| |e]] eqn:Hstep.
    + destruct (sleeps_step args w p p1 t st st1 Hpos Hlag Hclk Hdone Hstep)
        as (Hclk1 & Hdone1).
      eapply IH; eassumption.
    + injection H as <- <-. apply step_break in Hstep.
      destruct Hstep as (_ & -> & _ & ->). cbn [emit trace]. rewrite !sleeps_app.
      cbn. rewrite !Nat.add_0_r. exact Hdone.
    + injection H as <- <-. apply step_throw in Hstep.
      destruct Hstep as [(s & _ & _ & _ & Htr) | (_ & _ & _ & -> & _)].
      * rewrite Htr, sleeps_app.
        match goal with
        | |- context [sleeps (?x :: ?l)] => change (sleeps (x :: l)) with 0%nat
        end.
        rewrite Nat.add_0_r. destruct p; lia.
      * destruct p; lia.
Qed.

Section Bounds.

Variable str_strip : string -> string.
Variable str_to_int : string -> option Z.

Local Abbreviation run_acquire := (acquire str_strip str_to_int).
Local Abbreviation run_main := (main str_strip str_to_int).

(** [X14] With a positive duration [d] the loop sleeps at most
    [ceil(d/10)] times, however late its statements end: the hold is
    over, one way or another, within that many iterations. *)
Theorem sleeps_bounded (args : Args) (w : World) (ticks : list tick) :
  0 < duration args ->
  Forall (fun t => 0 <= lag t)%Q ticks ->
  (sleeps (trace (final (run_main args w ticks))) <= iterations_until (duration args))%nat.
Proof.
  intros Hpos Hhonest.
  assert (Hbound : forall k : nat,
            10 * (Z.of_nat k - 1) < duration args ->
            (k <= iterations_until (duration args))%nat).
  { intros k Hk. unfold iterations_until. apply Nat2Z.inj_le.
    assert (0 <= (duration args + 9) / 10) by (apply Z.div_pos; lia).
    rewrite Z2Nat.id by lia. apply Z.div_le_lower_bound; lia. }
  apply Hbound.
  destruct (run_acquire args w) as [st0 [ids|e]] eqn:Hacq.
  2:{ destruct (run_shapes str_strip str_to_int args w ticks)
        as (st0' & res & after & Hacq' & Htr & Hshape).
      rewrite Hacq in Hacq'. injection Hacq' as <- <-.
      destruct (acquire_spec str_strip str_to_int _ _ _ _ Hacq) as (Hhold & _).
      rewrite Htr, sleeps_app, (not_hold_no_sleep _ Hhold).
      destruct Hshape as [(e' & _ & _ & [(_ & ->) | (_ & ->)])
                         | (? & ? & ? & ? & Hres & _)]; [cbn; lia | cbn; lia | discriminate]. }
  destruct (acquire_spec str_strip str_to_int _ _ _ _ Hacq) as (Hhold & _).
  destruct (announce_spec args w ids st0) as (_ & Hclk & _).
  assert (Hentry : sleeps (trace (announce args w ids st0)) = 0%nat).
  { rewrite announce_trace, sleeps_app, (not_hold_no_sleep _ Hhold). reflexivity. }
  rewrite (main_held str_strip str_to_int args w ticks st0 ids Hacq).
  destruct (hold_loop args w AtSleep ticks (announce args w ids st0)) as [st' fin] eqn:Hloop.
  assert (Hloop' : 10 * (Z.of_nat (sleeps (trace st')) - 1) < duration args).
  { eapply (sleeps_loop args w ticks Hpos Hhonest AtSleep); [| |exact Hloop].
    - rewrite Hentry, Hclk. change (inject_Z (10 * Z.of_nat 0)) with 0%Q. lra.
    - rewrite Hentry. simpl. lia. }
  destruct (cleanup_spec st') as [_ Hclean].
  destruct fin as [ |[]|p]; cbn [final die emit trace]; rewrite ?Hclean, ?sleeps_app;
    cbn; rewrite ?Nat.add_0_r; exact Hloop'.
Qed.

(** [X15] SIGINT and SIGTERM are served alike: put SIGTERM in place of
    every signal delivered and the run is the same -- same status, same
    tensors, same actions -- but for the signal named at the handler's
    entry. *)
Theorem signals_are_alike (args : Args) (w : World) (ticks : list tick) :
  run_main args w (map as_sigterm ticks) = unlabel_run (run_main args w ticks).
Proof.
  destruct (run_acquire args w) as [st0 [ids|e]] eqn:Hacq.
  - destruct (acquire_spec str_strip str_to_int _ _ _ _ Hacq) as (Hhold & _).
    rewrite !(main_held str_strip str_to_int args w _ st0 ids Hacq).
    assert (Hentry : unlabel_state (announce args w ids st0) = announce args w ids st0).
    { unfold unlabel_state. rewrite unlabel_quiet; [now destruct (announce args w ids st0)|].
      rewrite announce_trace, existsb_app, (not_hold_not_stop _ Hhold). reflexivity. }
    rewrite <- Hentry at 1. rewrite hold_loop_unlabel.
    destruct (hold_loop args w AtSleep ticks (announce args w ids st0)) as [st' fin].
    cbn [fst snd].
    assert (Hclean : cleanup (unlabel_state st') = unlabel_state (cleanup st'))
      by (unfold cleanup, unlabel_state, emit, clear; cbn; now rewrite !map_app).
    destruct fin as [ |[]|p]; unfold unlabel_run, die; cbn [final outcome];
      rewrite ?Hclean; try reflexivity;
      unfold unlabel_state, emit; cbn; now rewrite !map_app.
  - destruct (acquire_spec str_strip str_to_int _ _ _ _ Hacq) as (Hhold & _).
    unfold main. rewrite Hacq. unfold unlabel_run, unlabel_state, die.
    cbn [final outcome]. f_equal.
    assert (Hq : map unlabel (trace st0) = trace st0)
      by (apply unlabel_quiet; now apply not_hold_not_stop).
    destruct e; cbn [emit trace tensors clock]; rewrite ?map_app, Hq;
      try reflexivity; now destruct st0.
Qed.

End Bounds.

(** * Concrete runs, continued *)

(** [X2] at the pieces of "0, 1". *)
Lemma join_then_split_witness :
  split ","%char (String.concat (String ","%char EmptyString) ["0"; " 1"]%string)
  = ["0"; " 1"]%string.
Proof.
  apply (join_then_split ","%char ["0"; " 1"]%string).
  - discriminate.
  - repeat constructor.
Defined.

(** [X4] at "0, 1". *)
Lemma parsed_count_witness :
  List.length [0; 1] = S (occurrences ","%char "0, 1") /\ [0; 1] <> [].
Proof.
  apply (parsed_count Sample.strip Sample.to_int "0, 1" [0; 1]). reflexivity.
Defined.

(** [X5] at the request "0, 1" when the second allocation runs out of memory. *)
Lemma attempts_follow_request_witness :
  (exists rest,
     [0; 1] = attempted (trace (final (Sample.run_main (Sample.request "0, 1" 5)
                                         Sample.second_fails []))) ++ rest) /\
  Forall (fun g => 0 <= g < 2)
    (attempted (trace (final (Sample.run_main (Sample.request "0, 1" 5)
                                Sample.second_fails [])))) /\
  acquire_calls (trace (final (Sample.run_main (Sample.request "0, 1" 5)
                                 Sample.second_fails [])))
  = List.length (attempted (trace (final (Sample.run_main (Sample.request "0, 1" 5)
                                            Sample.second_fails [])))) /\
  (acquire_calls (trace (final (Sample.run_main (Sample.request "0, 1" 5)
                                  Sample.second_fails [])))
   <= S (List.length (acquired (trace (final (Sample.run_main (Sample.request "0, 1" 5)
                                                Sample.second_fails []))))))%nat.
Proof.
  apply (attempts_follow_request Sample.strip Sample.to_int (Sample.request "0, 1" 5)
           Sample.second_fails [] [0; 1]).
  reflexivity.
Defined.

(** [X6] at the request "0, 1", one statement into the loop. *)
Lemma held_tensors_follow_request_witness :
  exists ids n,
    parse_gpu_ids Sample.strip Sample.to_int "0, 1" = Some ids /\ ids <> [] /\
    num_elements Sample.four_bytes = Return n /\ 0 <= n /\
    tensors (final (Sample.run_main (Sample.request "0, 1" 0) Sample.two_gpus [punctual]))
    = contents_at (AtAdd 0) (map (fresh_tensor n) ids) /\
    map device (tensors (final (Sample.run_main (Sample.request "0, 1" 0) Sample.two_gpus
                                  [punctual]))) = ids /\
    Forall (fun t => List.length (data t) = Z.to_nat n)
      (tensors (final (Sample.run_main (Sample.request "0, 1" 0) Sample.two_gpus
                         [punctual]))).
Proof.
  apply (held_tensors_follow_request Sample.strip Sample.to_int (Sample.request "0, 1" 0)
           Sample.two_gpus [punctual] (AtAdd 0)).
  vm_compute. reflexivity.
Defined.

(** [X9] at a run of 5 seconds that ends through the timeout. *)
Lemma handlers_after_allocation_witness :
  exists pre post,
    trace (final (Sample.run_main (Sample.request "0" 5) Sample.two_gpus (punctual_run 1 1)))
    = pre ++ HandlersInstalled :: post /\
    hold_started pre = false /\
    attempted pre
    = attempted (trace (final (Sample.run_main (Sample.request "0" 5) Sample.two_gpus
                                 (punctual_run 1 1)))) /\
    attempted post = [] /\
    ~ In HandlersInstalled post.
Proof.
  apply (handlers_after_allocation Sample.strip Sample.to_int (Sample.request "0" 5)
           Sample.two_gpus (punctual_run 1 1)).
  vm_compute. reflexivity.
Defined.

(** [X10] at [--memory nan]. *)
Lemma uncountable_memory_crashes_witness :
  num_elements S754_nan = Raise ValueError /\
  (forall s, num_elements (S754_infinity s) = Raise OverflowError) /\
  final (Sample.run_main {| gpus := "0, 1"; memory := S754_nan; duration := 0 |}
           Sample.two_gpus [])
  = {| tensors := [];
       trace := [Printed (MsgAllocating S754_nan [0; 1]);
                 Printed (MsgAllocatingOn (hd 0 [0; 1]));
                 AcquireFailed (hd 0 [0; 1]);
                 Traceback ValueError];
       clock := 0 |} /\
  outcome (Sample.run_main {| gpus := "0, 1"; memory := S754_nan; duration := 0 |}
             Sample.two_gpus []) = Exited 1.
Proof.
  apply (uncountable_memory_crashes Sample.strip Sample.to_int
           {| gpus := "0, 1"; memory := S754_nan; duration := 0 |}
           Sample.two_gpus [] [0; 1] ValueError); reflexivity.
Defined.


(** [X13] at two tensors of one element. *)
Lemma keep_alive_pass_witness :
  exists st',
    hold_loop (Sample.request "0, 1" 0) Sample.two_gpus AtSleep (repeat punctual 5)
      {| tensors := [fresh_tensor 1 0; fresh_tensor 1 1]; trace := []; clock := 0 |}
    = (st', LoopPending AtCheck) /\
    trace st' = [] ++ Slept 10 :: map Touched (seq 0 2) /\
    tensors st' = map keep_alive [fresh_tensor 1 0; fresh_tensor 1 1].
Proof.
  apply (keep_alive_pass (Sample.request "0, 1" 0) Sample.two_gpus
           {| tensors := [fresh_tensor 1 0; fresh_tensor 1 1]; trace := []; clock := 0 |}
           (repeat punctual 5)).
  - reflexivity.
  - repeat constructor.
Defined.

(** [X14] at a duration of 25 seconds: no more than three sleeps. *)
Lemma sleeps_bounded_witness :
  (sleeps (trace (final (Sample.run_main (Sample.request "0" 25) Sample.two_gpus
                           (punctual_run 1 5))))
   <= iterations_until 25)%nat.
Proof.
  apply (sleeps_bounded Sample.strip Sample.to_int (Sample.request "0" 25) Sample.two_gpus
           (punctual_run 1 5)).
  - simpl. lia.
  - apply Forall_forall. intros t Hin. apply repeat_spec in Hin. subst t.
    unfold Qle. simpl. lia.
Defined.

(** [C8] At [--help] the process ends with status 0 and nothing acquired;
    at a command line that [argparse] rejects it ends with status 2. *)
Lemma exit_status_counterexample :
  outcome (Sample.run_script HelpRequested Sample.two_gpus []) = Exited 0 /\
  acquired (trace (final (Sample.run_script HelpRequested Sample.two_gpus []))) = [] /\
  ~ zero_means_released (Sample.run_script HelpRequested Sample.two_gpus []) /\
  outcome (Sample.run_script Rejected Sample.two_gpus []) = Exited 2 /\
  ~ one_on_rejection Rejected (Sample.run_script Rejected Sample.two_gpus []).
Proof.
  split; [reflexivity|]. split; [reflexivity|]. split; [|split; [reflexivity|]].
  - intros Hzero. destruct (Hzero eq_refl) as [Hsome _]. now apply Hsome.
  - intros Hone. specialize (Hone eq_refl). discriminate.
Qed.

(** [C8] at five runs: two devices held for 5 seconds and released by
    the timeout; the value "0, x"; the value "0, 2" on two devices; a
    second allocation that runs out of memory; a rejected command line. *)
Lemma exit_status_witness :
  (Forall2 (fun piece t => Sample.to_int (Sample.strip piece) = Some (device t))
     (split ","%char "0, 1")
     (acquired (trace (final (Sample.run_script (Accepted (Sample.request "0, 1" 5)) Sample.two_gpus (punctual_run 2 1))))) /\
   tensors (final (Sample.run_script (Accepted (Sample.request "0, 1" 5)) Sample.two_gpus (punctual_run 2 1))) = [] /\
   List.length (released (trace (final (Sample.run_script (Accepted (Sample.request "0, 1" 5)) Sample.two_gpus (punctual_run 2 1)))))
   = List.length (acquired (trace (final (Sample.run_script (Accepted (Sample.request "0, 1" 5)) Sample.two_gpus (punctual_run 2 1))))) /\
   (timed_out (trace (final (Sample.run_script (Accepted (Sample.request "0, 1" 5)) Sample.two_gpus (punctual_run 2 1))))
    \/ signalled (trace (final (Sample.run_script (Accepted (Sample.request "0, 1" 5)) Sample.two_gpus (punctual_run 2 1)))))) /\
  outcome (Sample.run_script (Accepted (Sample.request "0, x" 5)) Sample.two_gpus [])
  = Exited 1 /\
  outcome (Sample.run_script (Accepted (Sample.request "0, 2" 5)) Sample.two_gpus [])
  = Exited 1 /\
  (outcome (Sample.run_script (Accepted (Sample.request "0, 1" 5)) Sample.second_fails [])
   = Exited 1 /\
   hold_started
     (trace (final (Sample.run_script (Accepted (Sample.request "0, 1" 5))
                      Sample.second_fails []))) = false) /\
  outcome (Sample.run_script Rejected Sample.two_gpus []) = Exited 2.
Proof.
  split; [|split; [|split; [|split]]].
  - destruct (exit_status Sample.strip Sample.to_int (Sample.request "0, 1" 5)
                Sample.two_gpus (punctual_run 2 1)) as (_ & _ & [Hzero _] & _).
    apply Hzero. vm_compute. reflexivity.
  - destruct (exit_status Sample.strip Sample.to_int (Sample.request "0, x" 5)
                Sample.two_gpus []) as (_ & _ & _ & Hpiece & _).
    apply Hpiece. apply Exists_cons_tl, Exists_cons_hd. reflexivity.
  - destruct (exit_status Sample.strip Sample.to_int (Sample.request "0, 2" 5)
                Sample.two_gpus []) as (_ & _ & _ & _ & Hrange & _).
    apply (Hrange [0; 2]).
    + repeat constructor.
    + apply Exists_cons_tl, Exists_cons_hd. simpl. lia.
  - destruct (exit_status Sample.strip Sample.to_int (Sample.request "0, 1" 5)
                Sample.second_fails []) as (_ & _ & _ & _ & _ & Hfail).
    apply (Hfail [0; 1] 1%nat).
    + repeat constructor.
    + simpl. lia.
    + vm_compute. reflexivity.
  - destruct (exit_status Sample.strip Sample.to_int (Sample.request "0" 5)
                Sample.two_gpus []) as (Hrejected & _).
    exact Hrejected.
Defined.
